(** * pyroute2 DHCP client: leases and hooks

    A shallow embedding of [pyroute2/dhcp/leases.py] (the [Lease] data
    class, its option descriptor, its timers and the JSON file
    persistence) and of the hook orchestrator exercised by
    [tests/test_linux/test_dhcp/test_hooks.py].

    Python is dynamically typed and a lease read back from disk is not
    validated, so every field of a lease is a Python value ([pyval]) and
    every operation may raise ([outcome]).  Code that reads the clock, draws
    random numbers, logs or touches the file system runs in the monad [M]
    over an explicit [world].

    Idealisation: a Python [float] is an exact rational ([Q]) and float
    arithmetic is carried out without rounding; infinities and NaN are
    outside the model.  The statements below are those that rounding does
    not disturb; one that needs the arithmetic to be exact says so by the
    hypothesis [exact_timer], under which the interpreter rounds nothing
    either. *)

From Stdlib Require Import ZArith QArith Qminmax Lqa Lia String Ascii List.
From Stdlib Require Import Decimal DecimalString DecimalNat.
From stdpp Require Import base option gmap strings list.

#[local] Set Warnings "-register-all".
#[local] Open Scope string_scope.

(** ** Python values and exceptions *)

(** The JSON-shaped fragment of Python's values: what [json.load] produces
    and what a decoded acknowledgement is made of. *)
Inductive pyval : Type :=
| VNone
| VBool (b : bool)
| VInt (z : Z)
| VFloat (q : Q)
| VStr (s : string)
| VList (l : list pyval)
| VDict (d : gmap string pyval).

(** Modelled from the spec: the enumeration [pyroute2.dhcp.enums.dhcp.Option]
    is not part of the sources at hand; these are the members that
    [leases.py] names, each with its Python member name. *)
Inductive Option : Type :=
| SUBNET_MASK
| ROUTER
| BROADCAST_ADDRESS
| INTERFACE_MTU
| NAME_SERVER
| SERVER_ID
| DOMAIN_NAME
| DOMAIN_SEARCH.

Definition Option_name (o : Option) : string :=
  match o with
  | SUBNET_MASK => "SUBNET_MASK"
  | ROUTER => "ROUTER"
  | BROADCAST_ADDRESS => "BROADCAST_ADDRESS"
  | INTERFACE_MTU => "INTERFACE_MTU"
  | NAME_SERVER => "NAME_SERVER"
  | SERVER_ID => "SERVER_ID"
  | DOMAIN_NAME => "DOMAIN_NAME"
  | DOMAIN_SEARCH => "DOMAIN_SEARCH"
  end.

(** The exceptions that the modelled code can raise.  [MissingOptionError]
    is the class defined in [leases.py] (a [LookupError] that is neither a
    [KeyError] nor an [IndexError]); [JSONDecodeError] is a [ValueError],
    not a [TypeError]. *)
Inductive exn : Type :=
| KeyError (key : pyval)
| IndexError
| TypeError
| ValueError
| JSONDecodeError
| FileNotFoundError (path : string)
| IsADirectoryError (path : string)
| MissingOptionError (opt : Option).

Inductive outcome (A : Type) : Type :=
| Ok (a : A)
| Raise (e : exn).
Arguments Ok {A} a.
Arguments Raise {A} e.

#[export] Instance outcome_ret : MRet outcome := fun A a => Ok a.
#[export] Instance outcome_bind : MBind outcome := fun A B f m =>
  match m with
  | Ok a => f a
  | Raise e => Raise e
  end.

(** ** Strings *)

Definition lower_ascii (c : ascii) : ascii :=
  let n := nat_of_ascii c in
  if (65 <=? n)%nat && (n <=? 90)%nat then ascii_of_nat (n + 32) else c.

(** [str.lower] on ASCII text. *)
Fixpoint lower (s : string) : string :=
  match s with
  | EmptyString => EmptyString
  | String c s' => String (lower_ascii c) (lower s')
  end.

(** [sub in s] for two strings. *)
Fixpoint str_contains (sub s : string) : bool :=
  String.prefix sub s ||
  match s with
  | EmptyString => false
  | String _ s' => str_contains sub s'
  end.

(** [s.split(sep)] for a one-character separator. *)
Fixpoint split_on (sep : ascii) (s : string) : list string :=
  match s with
  | EmptyString => [EmptyString]
  | String c s' =>
      if Ascii.eqb c sep then EmptyString :: split_on sep s'
      else match split_on sep s' with
           | [] => [String c EmptyString]
           | w :: ws => String c w :: ws
           end
  end.

(** [s.rfind(c)]: the index of the last occurrence of [c], if any. *)
Fixpoint rfind (c : ascii) (s : string) : option nat :=
  match s with
  | EmptyString => None
  | String a s' =>
      match rfind c s' with
      | Some i => Some (S i)
      | None => if Ascii.eqb a c then Some 0%nat else None
      end
  end.

Fixpoint str_take (n : nat) (s : string) : string :=
  match n, s with
  | S n', String c s' => String c (str_take n' s')
  | _, _ => EmptyString
  end.

Fixpoint str_drop (n : nat) (s : string) : string :=
  match n, s with
  | S n', String _ s' => str_drop n' s'
  | _, _ => s
  end.

Fixpoint str_join (sep : string) (l : list string) : string :=
  match l with
  | [] => EmptyString
  | [x] => x
  | x :: xs => x +:+ sep +:+ str_join sep xs
  end.

Fixpoint str_repeat (n : nat) (s : string) : string :=
  match n with
  | O => EmptyString
  | S n' => s +:+ str_repeat n' s
  end.

(** ** Python operators on values *)

Inductive num : Type :=
| NInt (z : Z)
| NFloat (q : Q).

(** Numbers, with [bool] counting as the integers 0 and 1. *)
Definition as_num (v : pyval) : option num :=
  match v with
  | VBool b => Some (NInt (Z.b2z b))
  | VInt z => Some (NInt z)
  | VFloat q => Some (NFloat q)
  | _ => None
  end.

Definition num_Q (n : num) : Q :=
  match n with
  | NInt z => inject_Z z
  | NFloat q => q
  end.

(** Arithmetic stays in the integers when both operands are integers and
    is done on floats otherwise. *)
Definition num_binop (fz : Z -> Z -> Z) (fq : Q -> Q -> Q) (a b : num) : pyval :=
  match a, b with
  | NInt x, NInt y => VInt (fz x y)
  | _, _ => VFloat (fq (num_Q a) (num_Q b))
  end.

(** [a + b] *)
Definition py_add (a b : pyval) : outcome pyval :=
  match as_num a, as_num b with
  | Some x, Some y => Ok (num_binop Z.add Qplus x y)
  | _, _ =>
      match a, b with
      | VStr s, VStr t => Ok (VStr (s +:+ t))
      | VList l, VList k => Ok (VList (l ++ k))
      | _, _ => Raise TypeError
      end
  end.

(** [a - b] *)
Definition py_sub (a b : pyval) : outcome pyval :=
  match as_num a, as_num b with
  | Some x, Some y => Ok (num_binop Z.sub Qminus x y)
  | _, _ => Raise TypeError
  end.

(** [a * b]: a product of numbers, or a sequence repeated an integer
    number of times. *)
Definition py_mul (a b : pyval) : outcome pyval :=
  match as_num a, as_num b with
  | Some x, Some y => Ok (num_binop Z.mul Qmult x y)
  | Some (NInt n), None | None, Some (NInt n) =>
      match (match as_num a with Some _ => b | None => a end) with
      | VStr s => Ok (VStr (str_repeat (Z.to_nat n) s))
      | VList l => Ok (VList (mjoin (replicate (Z.to_nat n) l)))
      | _ => Raise TypeError
      end
  | _, _ => Raise TypeError
  end.

(** [a <= n] for a number [n]: defined when [a] is a number too, a
    [TypeError] for every other value. *)
Definition py_le_num (a : pyval) (n : num) : outcome bool :=
  match as_num a with
  | Some x => Ok (Qle_bool (num_Q x) (num_Q n))
  | None => Raise TypeError
  end.

(** [bool(v)]: the truth value used by [if]. *)
Definition py_truthy (v : pyval) : bool :=
  match v with
  | VNone => false
  | VBool b => b
  | VInt z => negb (z =? 0)%Z
  | VFloat q => negb (Qeq_bool q 0)
  | VStr s => negb (String.eqb s "")
  | VList l => match l with [] => false | _ => true end
  | VDict d => negb (bool_decide (d = ∅))
  end.

Definition is_none (v : pyval) : bool :=
  match v with
  | VNone => true
  | _ => false
  end.

(** [v[key]] with a string key.  Only a dict accepts one; a missing key is
    a [KeyError].  Strings and lists want integer indices and the other
    values are not subscriptable: both are [TypeError]s. *)
Definition py_getitem (v : pyval) (key : string) : outcome pyval :=
  match v with
  | VDict d =>
      match d !! key with
      | Some x => Ok x
      | None => Raise (KeyError (VStr key))
      end
  | _ => Raise TypeError
  end.

(** A position [i] in a sequence of length [len], counting from the end
    when negative. *)
Definition seq_index (len : nat) (i : Z) : option nat :=
  if (0 <=? i)%Z && (i <? Z.of_nat len)%Z then Some (Z.to_nat i)
  else if (i <? 0)%Z && (- Z.of_nat len <=? i)%Z then Some (Z.to_nat (Z.of_nat len + i))
  else None.

(** [v[i]] with an integer index.  A dict loaded from JSON has string keys
    only, so an integer is never one of its keys.  A string is indexed
    byte by byte, which is character by character for ASCII text; the
    statements about a character of a string are made of ASCII characters
    only. *)
Definition py_index (v : pyval) (i : Z) : outcome pyval :=
  match v with
  | VList l =>
      match seq_index (length l) i ≫= (fun n => l !! n) with
      | Some x => Ok x
      | None => Raise IndexError
      end
  | VStr s =>
      match seq_index (String.length s) i with
      | Some n => Ok (VStr (str_take 1 (str_drop n s)))
      | None => Raise IndexError
      end
  | VDict _ => Raise (KeyError (VInt i))
  | _ => Raise TypeError
  end.

(** [key in v] for a string [key]: a key of a dict, an element of a list,
    a substring of a string; the other values are not containers. *)
Definition py_contains (key : string) (v : pyval) : outcome bool :=
  match v with
  | VDict d => Ok (bool_decide (is_Some (d !! key)))
  | VList l =>
      Ok (existsb (fun x => match x with VStr s => String.eqb s key | _ => false end) l)
  | VStr s => Ok (str_contains key s)
  | _ => Raise TypeError
  end.

(** ** The world: clock, random generator, log and file system *)

(** [pathlib.PurePosixPath]: whether the path starts at the root, and its
    components. *)
Record Path : Type := mkPath {
  absolute : bool;
  parts : list string
}.

Definition slash : ascii := "/"%char.
Definition dot : ascii := "."%char.

(** Parsing a path string: a leading slash makes the path absolute, empty
    components and ["."] are dropped, [".."] is kept. *)
Definition parse_path (s : string) : Path :=
  {| absolute := String.prefix "/" s;
     parts := List.filter (fun c => negb (String.eqb c "") && negb (String.eqb c "."))
                          (split_on slash s) |}.

(** [str(path)] *)
Definition path_str (p : Path) : string :=
  match absolute p, parts p with
  | false, [] => "."
  | false, ps => str_join "/" ps
  | true, ps => "/" +:+ str_join "/" ps
  end.

(** [path.joinpath(segment)]: an absolute segment replaces the path. *)
Definition joinpath (p : Path) (segment : string) : Path :=
  let q := parse_path segment in
  if absolute q then q
  else {| absolute := absolute p; parts := parts p ++ parts q |}.

(** [path.name]: the last component, empty when there is none. *)
Definition name (p : Path) : string := List.last (parts p) "".

(** [path.parent] *)
Definition parent (p : Path) : Path :=
  {| absolute := absolute p; parts := List.removelast (parts p) |}.

(** [path.suffix]: from the last dot of the name on, unless that dot is the
    first or the last character of the name. *)
Definition suffix (p : Path) : string :=
  let n := name p in
  match rfind dot n with
  | Some i =>
      if (0 <? i)%nat && (i <? String.length n - 1)%nat then str_drop i n else ""
  | None => ""
  end.

(** [path.with_suffix(sfx)]: the name with its suffix replaced by [sfx],
    or with [sfx] appended when it has none.  A path without a name and an
    invalid new suffix are [ValueError]s. *)
Definition with_suffix (p : Path) (sfx : string) : outcome Path :=
  if str_contains "/" sfx
     || (negb (String.eqb sfx "") && negb (String.prefix "." sfx))
     || String.eqb sfx "."
  then Raise ValueError
  else if String.eqb (name p) "" then Raise ValueError
  else
    let old := suffix p in
    let n := name p in
    let n' := str_take (String.length n - String.length old) n +:+ sfx in
    Ok {| absolute := absolute p; parts := List.removelast (parts p) ++ [n'] |}.

(** What a text file holds, as [json.load] sees it: text that it decodes
    to a value, or text that is not JSON at all (an empty or truncated
    file, for instance), which it rejects with [JSONDecodeError].  Text
    that the decoder gives up on in another way (an integer literal beyond
    the interpreter's digit limit, nesting beyond its recursion limit) is
    neither, and no statement here speaks of it. *)
Inductive file_content : Type :=
| JsonText (v : pyval)
| CorruptText.

Inductive log_level : Type :=
| DEBUG
| INFO
| WARNING
| ERROR.

Inductive log_arg : Type :=
| ArgStr (s : string)
| ArgPath (p : Path)
| ArgExc (e : exn).

(** A log record keeps the format string and its arguments apart, as
    [logging] does. *)
Record log_record : Type := mkLog {
  level : log_level;
  msg : string;
  args : list log_arg
}.

(** - [clock] and [ticks]: the successive readings of [time.time()] and how
      many were consumed;
    - [rng] and [draws]: the successive results of [random.random()] and
      how many were consumed;
    - [cwd]: the working directory;
    - [dirs] and [files]: the directories that exist and the content of
      the regular files, by path string;
    - [log]: the records emitted so far, oldest first. *)
Record world : Type := mkWorld {
  clock : nat -> Q;
  ticks : nat;
  rng : nat -> Q;
  draws : nat;
  cwd : Path;
  dirs : gset string;
  files : gmap string file_content;
  log : list log_record
}.

(** A computation with effects: it may change the world and it either
    returns or raises.  An exception does not undo the effects that came
    before it. *)
Definition M (A : Type) : Type := world -> outcome A * world.

#[export] Instance M_ret : MRet M := fun A a w => (Ok a, w).
#[export] Instance M_bind : MBind M := fun A B f m w =>
  match m w with
  | (Ok a, w') => f a w'
  | (Raise e, w') => (Raise e, w')
  end.

Definition raise {A} (e : exn) : M A := fun w => (Raise e, w).

(** A pure computation that may raise, run inside [M]. *)
Definition lift {A} (o : outcome A) : M A := fun w => (o, w).

(** [try: body except ...: handler]: [handlers e] is the handler of the
    first [except] clause that matches [e], if one does. *)
Definition try_except {A} (body : M A) (handlers : exn -> option (M A)) : M A :=
  fun w =>
    match body w with
    | (Ok a, w') => (Ok a, w')
    | (Raise e, w') =>
        match handlers e with
        | Some h => h w'
        | None => (Raise e, w')
        end
    end.

(** The world after one more clock reading, and after one more draw. *)
Definition tick (w : world) : world :=
  mkWorld (clock w) (S (ticks w)) (rng w) (draws w) (cwd w) (dirs w) (files w) (log w).

Definition drawn (w : world) : world :=
  mkWorld (clock w) (ticks w) (rng w) (S (draws w)) (cwd w) (dirs w) (files w) (log w).

(** [time.time()] *)
Definition _now : M pyval := fun w => (Ok (VFloat (clock w (ticks w))), tick w).

(** [random.random()], a float in the half-open interval from 0 to 1. *)
Definition random_random : M Q := fun w => (Ok (rng w (draws w)), drawn w).

(** [random.uniform(a, b)], which the standard library computes as
    [a + (b - a) * random()]. *)
Definition random_uniform (a b : Q) : M pyval :=
  r ← random_random; mret (VFloat (a + (b - a) * r)%Q).

(** The world with one more log record, and with a file written. *)
Definition logged (r : log_record) (w : world) : world :=
  mkWorld (clock w) (ticks w) (rng w) (draws w) (cwd w) (dirs w) (files w) (log w ++ [r]).

Definition written (p : string) (c : file_content) (w : world) : world :=
  mkWorld (clock w) (ticks w) (rng w) (draws w) (cwd w) (dirs w) (<[p := c]> (files w)) (log w).

(** [LOG.info], [LOG.warning], ... *)
Definition LOG (lvl : log_level) (fmt : string) (a : list log_arg) : M unit := fun w =>
  (Ok tt, logged (mkLog lvl fmt a) w).

(** [Path.cwd()] *)
Definition Path_cwd : M Path := fun w => (Ok (cwd w), w).

(** [path.open('rt')] followed by reading the whole file. *)
Definition open_rt (p : Path) : M file_content := fun w =>
  match files w !! path_str p with
  | Some c => (Ok c, w)
  | None =>
      if bool_decide (path_str p ∈ dirs w) then (Raise (IsADirectoryError (path_str p)), w)
      else (Raise (FileNotFoundError (path_str p)), w)
  end.

(** [path.open('wt')] followed by writing [c]: the file is created or
    replaced, provided its directory exists and the path is not itself a
    directory. *)
Definition open_wt (p : Path) (c : file_content) : M unit := fun w =>
  if bool_decide (path_str p ∈ dirs w) then (Raise (IsADirectoryError (path_str p)), w)
  else if bool_decide (path_str (parent p) ∈ dirs w) then (Ok tt, written (path_str p) c w)
  else (Raise (FileNotFoundError (path_str p)), w).

(** [json.load]: the decoded value, or [json.JSONDecodeError] for text
    that is not JSON. *)
Definition json_load (c : file_content) : outcome pyval :=
  match c with
  | JsonText v => Ok v
  | CorruptText => Raise JSONDecodeError
  end.

(** ** Leases *)

(** The data class [Lease].  Its fields carry type annotations in the
    source, but nothing checks them when a lease is built. *)
Record Lease : Type := mkLease {
  ack : pyval;
  interface : pyval;
  server_mac : pyval;
  obtained : pyval
}.

(** The descriptor [LeaseOption], holding the option it looks up. *)
Record LeaseOption : Type := mkLeaseOption {
  opt : Option
}.

(** [LeaseOption.__get__] *)
Definition LeaseOption_get (self : LeaseOption) (obj : Lease) : outcome pyval :=
  let opt_name := lower (Option_name (opt self)) in
  options ← py_getitem (ack obj) "options";
  present ← py_contains opt_name options;
  if negb present then Raise (MissingOptionError (opt self))
  else
    options ← py_getitem (ack obj) "options";
    opt_value ← py_getitem options opt_name;
    mret opt_value.

Definition subnet_mask : Lease -> outcome pyval := LeaseOption_get (mkLeaseOption SUBNET_MASK).
Definition routers : Lease -> outcome pyval := LeaseOption_get (mkLeaseOption ROUTER).
Definition broadcast_address : Lease -> outcome pyval :=
  LeaseOption_get (mkLeaseOption BROADCAST_ADDRESS).
Definition mtu : Lease -> outcome pyval := LeaseOption_get (mkLeaseOption INTERFACE_MTU).
Definition name_servers : Lease -> outcome pyval := LeaseOption_get (mkLeaseOption NAME_SERVER).
Definition server_id : Lease -> outcome pyval := LeaseOption_get (mkLeaseOption SERVER_ID).
Definition domain_name : Lease -> outcome pyval := LeaseOption_get (mkLeaseOption DOMAIN_NAME).
Definition domain_search : Lease -> outcome pyval :=
  LeaseOption_get (mkLeaseOption DOMAIN_SEARCH).

(** [Lease._seconds_til_timer].  The clock is read after the option was
    found and added to [obtained]; only a [KeyError] is turned into
    [None]. *)
Definition _seconds_til_timer (self : Lease) (timer_name : string) : M pyval :=
  try_except
    (options ← lift (py_getitem (ack self) "options");
     delta ← lift (py_getitem options (timer_name +:+ "_time"));
     due ← lift (py_add (obtained self) delta);
     now ← _now;
     lift (py_sub due now))
    (fun e => match e with
              | KeyError _ => Some (mret VNone)
              | _ => None
              end).

(** [Lease.expiration_in] *)
Definition expiration_in (self : Lease) : M pyval :=
  _seconds_til_timer self "lease".

(** [Lease.expired]: the property [expiration_in] is read twice. *)
Definition expired (self : Lease) : M bool :=
  e ← expiration_in self;
  if is_none e then mret false
  else
    e ← expiration_in self;
    lift (py_le_num e (NInt 0)).

(** [Lease.renewal_in] *)
Definition renewal_in (self : Lease) : M pyval :=
  lease_renewal ← _seconds_til_timer self "renewal";
  if py_truthy lease_renewal then mret lease_renewal
  else
    e ← expiration_in self;
    u ← random_uniform (4 # 10) (6 # 10);
    lift (py_mul e u).

(** [Lease.rebinding_in] *)
Definition rebinding_in (self : Lease) : M pyval :=
  lease_rebinding ← _seconds_til_timer self "rebinding";
  if py_truthy lease_rebinding then mret lease_rebinding
  else
    e ← expiration_in self;
    u ← random_uniform (75 # 100) (90 # 100);
    lift (py_mul e u).

(** [Lease.ip] *)
Definition ip (self : Lease) : outcome pyval := py_getitem (ack self) "yiaddr".

(** [Lease.default_gateway] *)
Definition default_gateway (self : Lease) : outcome pyval :=
  r ← routers self; py_index r 0.

(** [dataclasses.asdict] of a lease. *)
Definition asdict (self : Lease) : pyval :=
  VDict (<["ack" := ack self]>
         (<["interface" := interface self]>
          (<["server_mac" := server_mac self]>
           (<["obtained" := obtained self]> ∅)))).

Definition Lease_fields : gset string :=
  {["ack"; "interface"; "server_mac"; "obtained"]}.

(** The generated [__init__], called by [load] with the entries of the
    decoded document as keyword arguments: the document must be a mapping,
    every key must be a field, the three fields without a default must be
    given, and [obtained] defaults to the current time. *)
Definition Lease_init (kwargs : pyval) : M Lease :=
  match kwargs with
  | VDict d =>
      if bool_decide (dom d ⊆ Lease_fields) then
        match d !! "ack", d !! "interface", d !! "server_mac" with
        | Some a, Some i, Some m =>
            match d !! "obtained" with
            | Some o => mret (mkLease a i m o)
            | None => o ← _now; mret (mkLease a i m o)
            end
        | _, _, _ => raise TypeError
        end
      else raise TypeError
  | _ => raise TypeError
  end.

Module JSONFileLease.

(** [JSONFileLease._get_lease_dir] *)
Definition _get_lease_dir : M Path := Path_cwd.

(** [JSONFileLease._get_path] *)
Definition _get_path (interface : string) : M Path :=
  d ← _get_lease_dir;
  lift (with_suffix (joinpath d interface) ".lease.json").

(** [JSONFileLease.dump].  [joinpath] refuses an interface that is not
    a string. *)
Definition dump (self : Lease) : M unit :=
  match interface self with
  | VStr i =>
      lease_path ← _get_path i;
      LOG INFO "Writing lease for %s to %s" [ArgStr i; ArgPath lease_path];;
      open_wt lease_path (JsonText (asdict self))
  | _ => raise TypeError
  end.

(** [JSONFileLease.load] *)
Definition load (interface : string) : M (option Lease) :=
  lease_path ← _get_path interface;
  try_except
    (lf ← open_rt lease_path;
     LOG INFO "Loading lease for %s from %s" [ArgStr interface; ArgPath lease_path];;
     kwargs ← lift (json_load lf);
     l ← Lease_init kwargs;
     mret (Some l))
    (fun e => match e with
              | FileNotFoundError _ =>
                  Some (LOG INFO "No existing lease at %s for %s"
                            [ArgPath lease_path; ArgStr interface];;
                        mret None)
              | TypeError =>
                  Some (LOG WARNING "Error loading lease: %s" [ArgExc e];;
                        mret None)
              | _ => None
              end).

End JSONFileLease.

Module JSONStdoutLease.

(** [JSONStdoutLease.load]: nothing is ever loaded. *)
Definition load (interface : string) : M (option Lease) := mret None.

End JSONStdoutLease.

(** ** Vocabulary of the statements *)

(** What a computation returns or raises in a world, and the world it
    leaves behind. *)
Definition result {A} (m : M A) (w : world) : outcome A := fst (m w).
Definition after {A} (m : M A) (w : world) : world := snd (m w).

(** Every draw of the generator lies in the half-open unit interval. *)
Definition rng_in_range (w : world) : Prop :=
  ∀ n : nat, (0 <= rng w n)%Q ∧ (rng w n < 1)%Q.

(** The working directory exists. *)
Definition cwd_exists (w : world) : Prop := path_str (cwd w) ∈ dirs w.

(** The acknowledgement of [l] is a mapping whose ["options"] entry is the
    mapping [o]. *)
Definition lease_options (l : Lease) (o : gmap string pyval) : Prop :=
  ∃ d : gmap string pyval, ack l = VDict d ∧ d !! "options" = Some (VDict o).

(** The eight option properties of [Lease]: the key each one reads in the
    options mapping, the option it is declared with, and the property. *)
Definition option_properties : list (string * Option * (Lease -> outcome pyval)) :=
  [ ("subnet_mask", SUBNET_MASK, subnet_mask);
    ("router", ROUTER, routers);
    ("broadcast_address", BROADCAST_ADDRESS, broadcast_address);
    ("interface_mtu", INTERFACE_MTU, mtu);
    ("name_server", NAME_SERVER, name_servers);
    ("server_id", SERVER_ID, server_id);
    ("domain_name", DOMAIN_NAME, domain_name);
    ("domain_search", DOMAIN_SEARCH, domain_search) ].

(** The common shape of [renewal_in] and [rebinding_in]: the explicit timer
    when it is truthy, else the expiration scaled by a fresh draw between
    [lo] and [hi]. *)
Definition timer_or_fallback (timer : string) (lo hi : Q) (self : Lease) : M pyval :=
  explicit ← _seconds_til_timer self timer;
  if py_truthy explicit then mret explicit
  else
    e ← expiration_in self;
    u ← random_uniform lo hi;
    lift (py_mul e u).




(** Whether character [c] occurs in [s]. *)
Fixpoint has_char (c : ascii) (s : string) : bool :=
  match s with
  | EmptyString => false
  | String a s' => Ascii.eqb a c || has_char c s'
  end.

(** An interface name that is a single path component: not empty, not
    ["."], without a slash.  Every name the kernel accepts is one. *)
Definition plain_name (i : string) : Prop :=
  i ≠ "" ∧ i ≠ "." ∧ has_char slash i = false.

(** The name of the lease file of a plain interface name: the name
    without its suffix, then [".lease.json"]. *)
Definition lease_file_name (i : string) : string :=
  str_take (String.length i - String.length (suffix (mkPath false [i]))) i +:+ ".lease.json".

(** The lease file of a plain interface name in world [w]. *)
Definition lease_file (w : world) (i : string) : Path :=
  mkPath (absolute (cwd w)) (parts (cwd w) ++ [lease_file_name i]).

(** The three records that [load] can emit. *)
Definition loading_record (i : string) (p : Path) : log_record :=
  mkLog INFO "Loading lease for %s from %s" [ArgStr i; ArgPath p].

Definition no_lease_record (i : string) (p : Path) : log_record :=
  mkLog INFO "No existing lease at %s for %s" [ArgPath p; ArgStr i].

Definition load_error_record (e : exn) : log_record :=
  mkLog WARNING "Error loading lease: %s" [ArgExc e].

(** The record that [dump] emits. *)
Definition writing_record (i : string) (p : Path) : log_record :=
  mkLog INFO "Writing lease for %s to %s" [ArgStr i; ArgPath p].

(** ** Hooks *)

Module Hooks.

(** The module [pyroute2.dhcp.hooks] is not part of the sources at hand,
    only its tests are: every definition of this module follows sections
    3, 4.5 and 5 of the specification, and the two messages that
    [test_hooks.py] expects. *)

(** Modelled from the spec: the enumeration [hooks.Trigger], absent from
    the sources; the lifecycle events at which hooks run are lease
    obtained, renewed, rebound and lost. *)
Inductive Trigger : Type :=
| BOUND
| RENEWED
| REBOUND
| LOST.

(** Modelled from the spec: the run of a hook body, absent from the
    sources.  What the body of a hook does once started: it returns after
    some seconds, raises after some seconds a failure with the given
    description, or never finishes. *)
Inductive behaviour : Type :=
| Returns (seconds : Q)
| Raises (seconds : Q) (description : string)
| Hangs.

(** Modelled from the spec: the hook objects that [hooks.hook] builds,
    absent from the sources; a hook is a named unit of behaviour bound
    to one trigger, accepting a lease. *)
Record Hook : Type := mkHook {
  hook_name : string;
  hook_trigger : Trigger;
  hook_body : Lease -> behaviour
}.

(** Modelled from the spec: the three terminal outcomes of a hook. *)
Inductive terminal : Type :=
| Completed
| TimedOut
| Failed (description : string).

(** Modelled from the spec: the per-hook part of [hooks.run_hooks],
    absent from the sources.  The outcome of a hook allotted [timeout]
    seconds, and the time after dispatch at which it is reached: a body
    that needs more than the timeout is cancelled when the timeout
    elapses. *)
Definition settle (timeout : Q) (b : behaviour) : terminal * Q :=
  match b with
  | Returns d => if Qle_bool d timeout then (Completed, d) else (TimedOut, timeout)
  | Raises d description =>
      if Qle_bool d timeout then (Failed description, d) else (TimedOut, timeout)
  | Hangs => (TimedOut, timeout)
  end.

(** Modelled from the spec: the log calls of [hooks.run_hooks], absent
    from the sources.  The error logged for an outcome: none for a
    success. *)
Definition error_message (name : string) (t : terminal) : option string :=
  match t with
  | Completed => None
  | TimedOut => Some ("Hook '" +:+ name +:+ "' timed out")
  | Failed description => Some ("Hook " +:+ name +:+ " failed: " +:+ description)
  end.

(** Modelled from the spec: what a run of [hooks.run_hooks] leaves
    behind: the outcome recorded for each hook, the errors logged, and the
    time after dispatch at which [run_hooks] returned. *)
Record report : Type := mkReport {
  outcomes : list (string * terminal);
  errors : list string;
  returned_at : Q
}.

(** Modelled from the spec: [hooks.run_hooks], absent from the sources.
    [run_hooks(hooks, lease, trigger, timeout)]: every hook of the
    sequence is started at once, each with its own timeout; the run
    returns when the last of them has settled.  The specification leaves
    the order of the log entries of sibling hooks open; they are listed
    here in dispatch order. *)
Definition run_hooks (hooks : list Hook) (lease : Lease) (trigger : Trigger)
           (timeout : Q) : report :=
  let settled := map (fun h => (hook_name h, settle timeout (hook_body h lease))) hooks in
  {| outcomes := map (fun s => (fst s, fst (snd s))) settled;
     errors := omap (fun s => error_message (fst s) (fst (snd s))) settled;
     returned_at := fold_right Qmax 0%Q (map (fun s => snd (snd s)) settled) |}.

(** The body needs more than the time allotted to it. *)
Definition exceeds (timeout : Q) (b : behaviour) : Prop :=
  match b with
  | Returns d | Raises d _ => (timeout < d)%Q
  | Hangs => True
  end.

(** The two hooks of [test_hooks.py]. *)
Definition sleepy_hook : Hook :=
  mkHook "sleepy_hook" BOUND (fun _ => Returns 10).

Definition failing_hook : Hook :=
  mkHook "failing_hook" BOUND (fun _ => Raises 0 "RuntimeError('boom')").

End Hooks.

(** ** The console of [pyroute2/cli] *)

Module Console.

(** The parts of [Console] that compute on text and on the context stack:
    [convert], and three blocks of the loop of [interact]. *)

Definition is_digit (c : ascii) : bool :=
  let n := nat_of_ascii c in (48 <=? n)%nat && (n <=? 57)%nat.

Fixpoint all_digits (s : string) : bool :=
  match s with
  | EmptyString => true
  | String c s' => is_digit c && all_digits s'
  end.

Definition newline : ascii := ascii_of_nat 10.

(** The text without the one newline that may end it: in a pattern, [$]
    matches at the end of the text and also just before a final newline;
    [int] ignores the newline as well. *)
Fixpoint chomp (s : string) : string :=
  match s with
  | EmptyString => EmptyString
  | String c EmptyString => if Ascii.eqb c newline then EmptyString else s
  | String c s' => String c (chomp s')
  end.

(** [re.match('^[0-9]+$', arg)] *)
Definition re_match_digits (arg : string) : bool :=
  negb (String.eqb (chomp arg) "") && all_digits (chomp arg).

Definition digit_value (c : ascii) : Z := Z.of_nat (nat_of_ascii c - 48).

(** The value of a run of decimal digits, most significant first. *)
Fixpoint int_acc (acc : Z) (s : string) : Z :=
  match s with
  | EmptyString => acc
  | String c s' => int_acc (10 * acc + digit_value c) s'
  end.

(** [Console.convert]: text made of decimal digits becomes the integer it
    writes, anything else is returned as it is.  (Interpreters that cap
    the number of digits [int] accepts, at 4300 by default, raise beyond
    the cap; the statements about [convert] are about shorter text.) *)
Definition convert (arg : string) : pyval :=
  if re_match_digits arg then VInt (int_acc 0 (chomp arg)) else VStr arg.

(** [s.find(c)]: the first index of [c], or -1. *)
Fixpoint find (c : ascii) (s : string) : Z :=
  match s with
  | EmptyString => (-1)%Z
  | String a s' =>
      if Ascii.eqb a c then 0%Z
      else if (find c s' <? 0)%Z then (-1)%Z else (find c s' + 1)%Z
  end.

(** [s[:n]]: the first [n] characters, or all but the last [-n] when [n]
    is negative. *)
Definition slice_to (s : string) (n : Z) : string :=
  if (0 <=? n)%Z then str_take (Z.to_nat n) s
  else str_take (String.length s - Z.to_nat (- n)) s.

(** The block of [interact] that strips comments: the command is cut at
    its first exclamation mark, then at its first hash if one is left. *)
Definition strip_comments (cmd : string) : string :=
  let fbang := find "!" cmd in
  let fhash := find "#" cmd in
  let cmd := if (0 <=? fbang)%Z then slice_to cmd fbang else cmd in
  if (0 <=? find "#" cmd)%Z then slice_to cmd fhash else cmd.

Section Contexts.

(** The objects the console points at ([IPDB], interfaces, ...). *)
Variable Ptr : Type.

(** An entry of [self.stack]: the context left, its name and the
    indentation of the line that left it. *)
Record frame : Type := mkFrame {
  f_ptr : Ptr;
  f_name : option string;
  f_spaces : nat
}.

(** [self.ptr], [self.ptrname], [self.stack] and what was printed.  The
    stack is kept top first: its head is [self.stack[-1]]. *)
Record session : Type := mkSession {
  ptr : Ptr;
  ptrname : option string;
  stack : list frame;
  printed : list string
}.

(** The block of [interact] that, when input is not a terminal, compares
    the indentation [lspaces] of the command with the stack: frames are
    popped while the top one is indented at least as much, until one
    indented exactly as much has been popped. *)
Fixpoint unwind_from (lspaces : nat) (cmd : string) (s : list frame)
         (cur : Ptr * option string) (out : list string) : session :=
  match s with
  | [] => mkSession (fst cur) (snd cur) s out
  | top :: rest =>
      if (lspaces <=? f_spaces top)%nat then
        if (f_spaces top =? lspaces)%nat then
          mkSession (f_ptr top) (f_name top) rest out
        else if (f_spaces top <? lspaces)%nat then
          mkSession (f_ptr top) (f_name top) rest
                    (out ++ ["indentation warning: <" +:+ cmd +:+ ">"])
        else unwind_from lspaces cmd rest (f_ptr top, f_name top) out
      else mkSession (fst cur) (snd cur) s out
  end.

Definition unwind (lspaces : nat) (cmd : string) (c : session) : session :=
  unwind_from lspaces cmd (stack c) (ptr c, ptrname c) (printed c).

(** The last branch of [interact]: the command named an object that is
    neither callable nor a simple attribute, which becomes the context;
    the context left is pushed with the indentation of the command. *)
Definition enter (lspaces : nat) (obj : Ptr) (token : string) (c : session) : session :=
  mkSession obj (Some token) (mkFrame (ptr c) (ptrname c) lspaces :: stack c) (printed c).

End Contexts.

Arguments mkFrame {Ptr} _ _ _.
Arguments f_ptr {Ptr} _.
Arguments f_name {Ptr} _.
Arguments f_spaces {Ptr} _.
Arguments mkSession {Ptr} _ _ _ _.
Arguments ptr {Ptr} _.
Arguments ptrname {Ptr} _.
Arguments stack {Ptr} _.
Arguments printed {Ptr} _.
Arguments unwind_from {Ptr} _ _ _ _ _.
Arguments unwind {Ptr} _ _ _.
Arguments enter {Ptr} _ _ _ _.

(** The loop of [interact] that sorts the tokens after the first into
    positional and keyword arguments: a token followed by [=] and by
    one more token is a keyword argument, every other token is a
    positional one; values go through [convert]. *)
Fixpoint parse_args (tokens : list string) (argv : list pyval) (kwarg : gmap string pyval)
  : list pyval * gmap string pyval :=
  match tokens with
  | [] => (argv, kwarg)
  | k :: tokens' =>
      match tokens' with
      | e :: v :: rest =>
          if String.eqb e "=" then parse_args rest argv (<[k := convert v]> kwarg)
          else parse_args tokens' (argv ++ [convert k]) kwarg
      | _ => parse_args tokens' (argv ++ [convert k]) kwarg
      end
  end.

(** The context stack is indented: every frame is indented less than the
    frames above it. *)
Fixpoint indented {Ptr : Type} (s : list (frame Ptr)) : Prop :=
  match s with
  | [] => True
  | top :: rest =>
      Forall (fun below => (f_spaces below < f_spaces top)%nat) rest ∧ indented rest
  end.

(** [str(n)] for a natural number: its decimal digits, without leading
    zero. *)
Definition py_str (n : nat) : string := NilEmpty.string_of_uint (Nat.to_uint n).

(** The text before the first occurrence of [c]. *)
Fixpoint before (c : ascii) (s : string) : string :=
  match s with
  | EmptyString => EmptyString
  | String a s' => if Ascii.eqb a c then EmptyString else String a (before c s')
  end.

(** The longest prefix of a command without comment marker. *)
Fixpoint before_comment (s : string) : string :=
  match s with
  | EmptyString => EmptyString
  | String c s' =>
      if Ascii.eqb c "!" || Ascii.eqb c "#" then EmptyString
      else String c (before_comment s')
  end.

End Console.

(** ** Further vocabulary *)

(** The clock never runs backwards. *)
Definition monotone_clock (w : world) : Prop :=
  ∀ n m : nat, (n <= m)%nat -> (clock w n <= clock w m)%Q.

(** [w'] is [w] some clock readings later: the same clock, read at least
    as many times.  Nothing is said of the rest of the world. *)
Definition later (w w' : world) : Prop :=
  clock w' = clock w ∧ (ticks w <= ticks w')%nat.

(** Two worlds with the same working directory, directories and files. *)
Definition same_store (w w' : world) : Prop :=
  cwd w' = cwd w ∧ dirs w' = dirs w ∧ files w' = files w.

(** The name of an interface without its suffix, as [with_suffix] cuts
    it. *)
Definition stem (i : string) : string :=
  str_take (String.length i - String.length (suffix (mkPath false [i]))) i.

(** A document that the constructor of [Lease] accepts: a mapping with no
    other keys than the four fields, among them the three that have no
    default. *)
Definition lease_record (v : pyval) : Prop :=
  ∃ d : gmap string pyval,
    v = VDict d ∧ dom d ⊆ Lease_fields ∧
    is_Some (d !! "ack") ∧ is_Some (d !! "interface") ∧ is_Some (d !! "server_mac").

(** [del lease.ack['options'][key]], as [test_hooks.py] does to the fake
    lease: the lease with that option removed from its acknowledgement.
    A key that is not there is a [KeyError]; only a mapping supports the
    deletion of a string key. *)
Definition del_option (l : Lease) (key : string) : outcome Lease :=
  options ← py_getitem (ack l) "options";
  match ack l, options with
  | VDict d, VDict o =>
      match o !! key with
      | Some _ =>
          Ok (mkLease (VDict (<["options" := VDict (delete key o)]> d))
                      (interface l) (server_mac l) (obtained l))
      | None => Raise (KeyError (VStr key))
      end
  | _, _ => Raise TypeError
  end.

(** A number that a double holds exactly, with room to spare: a multiple
    of 2^-22 of magnitude at most 2^31.  Every whole number of seconds up
    to 2^31 is one, and so is every reading of [time.time()] from 2004 to
    2038, the doubles between 2^30 and 2^31 being the multiples of
    2^-22. *)
Definition exact_float (q : Q) : Prop :=
  ∃ m : Z, (q == m # 4194304)%Q ∧ (Z.abs m <= 9007199254740992)%Z.

(** The timer [t + delta - now] is computed without rounding: the two
    times, the integer [delta], the sum and the difference are all
    [exact_float], so that the double the interpreter computes is the
    very rational the model computes. *)
Definition exact_timer (t : Q) (delta : Z) (now : Q) : Prop :=
  exact_float t ∧ exact_float (inject_Z delta) ∧ exact_float now ∧
  exact_float (t + inject_Z delta) ∧ exact_float (t + inject_Z delta - now).

(** ** Example leases and worlds *)

Definition broadcast_lease : Lease :=
  mkLease (VDict {[ "yiaddr" := VStr "192.168.112.73";
                    "options" := VDict {[ "subnet_mask" := VStr "255.255.255.0";
                                          "interface_mtu" := VInt 1500 ]} ]})
          (VStr "eth0") (VStr "2e:7e:7d:8e:5f:5f") (VFloat 1000).

Definition no_router_lease : Lease :=
  mkLease (VDict {[ "options" := VDict {[ "router" := VList [] ]} ]})
          (VStr "eth0") (VStr "2e:7e:7d:8e:5f:5f") (VFloat 1000).

(** The lease of [test_hooks.py] ([FAKE_LEASE]), obtained at a whole
    number of seconds so that every timer below is an exact float. *)
Definition fake_options : gmap string pyval :=
  {[ "message_type" := VInt 5;
     "server_id" := VStr "192.168.112.1";
     "lease_time" := VInt 120;
     "renewal_time" := VInt 60;
     "rebinding_time" := VInt 105;
     "subnet_mask" := VStr "255.255.255.0";
     "broadcast_address" := VStr "192.168.112.255";
     "router" := VList [VStr "192.168.112.1"];
     "name_server" := VList [VStr "192.168.112.1"] ]}.

Definition fake_ack (options : gmap string pyval) : pyval :=
  VDict {[ "op" := VInt 2;
           "xid" := VInt 1323206580;
           "yiaddr" := VStr "192.168.112.73";
           "siaddr" := VStr "192.168.112.1";
           "chaddr" := VStr "72:c1:55:6f:76:83";
           "options" := VDict options ]}.

Definition obtained_at : Q := 1738249608.

Definition fake_lease : Lease :=
  mkLease (fake_ack fake_options) (VStr "eth0") (VStr "2e:7e:7d:8e:5f:5f")
          (VFloat obtained_at).

(** The same lease from a server that sent neither renewal nor rebinding
    time. *)
Definition bare_options : gmap string pyval :=
  delete "rebinding_time" (delete "renewal_time" fake_options).

Definition bare_lease : Lease :=
  mkLease (fake_ack bare_options) (VStr "eth0") (VStr "2e:7e:7d:8e:5f:5f")
          (VFloat obtained_at).

(** And from one that sent no lease time either. *)
Definition timeless_options : gmap string pyval := delete "lease_time" bare_options.

Definition timeless_lease : Lease :=
  mkLease (fake_ack timeless_options) (VStr "eth0") (VStr "2e:7e:7d:8e:5f:5f")
          (VFloat obtained_at).

(** A world whose clock stands still at [now], as under a patched [_now],
    whose generator draws 1/2, 1/3, 1/4, ..., and whose working
    directory [/var/lib/dhcp] holds no file. *)
Definition lease_dir : Path := mkPath true ["var"; "lib"; "dhcp"].

Definition frozen_world (now : Q) : world :=
  mkWorld (fun _ => now) 0 (fun n => 1 # Pos.of_succ_nat (S n)) 0
          lease_dir {[ "/"; "/var"; "/var/lib"; "/var/lib/dhcp" ]} ∅ [].

(** The world [frozen_world obtained_at] with one file in the working
    directory. *)
Definition world_with_file (file_name : string) (c : file_content) : world :=
  written ("/var/lib/dhcp/" +:+ file_name) c (frozen_world obtained_at).

(** The fake lease as written for [wlan0]. *)
Definition wlan0_lease : Lease :=
  mkLease (fake_ack fake_options) (VStr "wlan0") (VStr "2e:7e:7d:8e:5f:5f")
          (VFloat obtained_at).

(** Documents with the four expected keys and unexpected values: an
    acknowledgement without options, and one whose lease time is text. *)
Definition hollow_lease : Lease :=
  mkLease (VDict ∅) (VInt 5) VNone (VStr "yesterday").

Definition soon_lease : Lease :=
  mkLease (VDict {[ "options" := VDict {[ "lease_time" := VStr "soon" ]} ]})
          (VStr "eth0") (VStr "2e:7e:7d:8e:5f:5f") (VFloat obtained_at).

(** The lease of the tests on two VLAN interfaces. *)
Definition vlan100_lease : Lease :=
  mkLease (fake_ack fake_options) (VStr "eth0.100") (VStr "2e:7e:7d:8e:5f:5f")
          (VFloat obtained_at).

(** A lease whose acknowledgement gives its router as plain text instead
    of a list. *)
Definition text_router_lease : Lease :=
  mkLease (VDict {[ "options" := VDict {[ "router" := VStr "192.168.112.1" ]} ]})
          (VStr "eth0") (VStr "2e:7e:7d:8e:5f:5f") (VFloat 1000).

(** A lease file written without the time at which the lease was
    obtained. *)
Definition undated_record : gmap string pyval :=
  {[ "ack" := fake_ack fake_options;
     "interface" := VStr "eth0";
     "server_mac" := VStr "2e:7e:7d:8e:5f:5f" ]}.

(** A console session two contexts deep: [interfaces] was entered from a
    command without indentation, [eth0] from one indented by four. *)
Definition nested_session : Console.session string :=
  Console.mkSession "eth0" (Some "eth0")
    [Console.mkFrame "interfaces" (Some "interfaces") 4; Console.mkFrame "ipdb" None 0] [].

(** * Properties *)

(** ** The option accessor *)

Lemma LeaseOption_get_missing (p : LeaseOption) (l : Lease) (o : gmap string pyval) :
  lease_options l o ->
  o !! lower (Option_name (opt p)) = None ->
  LeaseOption_get p l = Raise (MissingOptionError (opt p)).
Proof.
  intros (d & Hack & Hopts) Hnone.
  unfold LeaseOption_get. rewrite Hack. cbn. rewrite Hopts. cbn.
  rewrite Hnone.
  rewrite bool_decide_eq_false_2 by (intros [? ?]; discriminate).
  reflexivity.
Qed.

Lemma LeaseOption_get_present (p : LeaseOption) (l : Lease) (o : gmap string pyval) (v : pyval) :
  lease_options l o ->
  o !! lower (Option_name (opt p)) = Some v ->
  LeaseOption_get p l = Ok v.
Proof.
  intros (d & Hack & Hopts) Hsome.
  unfold LeaseOption_get. rewrite Hack. cbn. rewrite Hopts. cbn.
  rewrite Hsome.
  rewrite bool_decide_eq_true_2 by eauto.
  reflexivity.
Qed.

(** C6.  Let the acknowledgement of a lease carry an options mapping [o].
    For each of the eight option properties (subnet_mask, routers,
    broadcast_address, mtu, name_servers, server_id, domain_name,
    domain_search): if [o] has no entry under the property's key, reading
    the property raises [MissingOptionError] carrying exactly the
    property's own option; if [o] maps the key to [v], reading the
    property returns [v] itself, whatever kind of value it is. *)
Theorem C6_option_properties (l : Lease) (o : gmap string pyval) :
  lease_options l o ->
  Forall (fun '(key, option, property) =>
            (o !! key = None -> property l = Raise (MissingOptionError option)) ∧
            (∀ v : pyval, o !! key = Some v -> property l = Ok v))
         option_properties.
Proof.
  intros Hl.
  unfold option_properties.
  repeat apply Forall_cons_2; try apply Forall_nil_2;
    (split;
     [ intros Hnone; eapply (LeaseOption_get_missing (mkLeaseOption _)); eauto
     | intros v Hsome; eapply (LeaseOption_get_present (mkLeaseOption _)); eauto ]).
Qed.

Lemma C6_option_properties_witness :
  broadcast_address broadcast_lease = Raise (MissingOptionError BROADCAST_ADDRESS) ∧
  mtu broadcast_lease = Ok (VInt 1500).
Proof.
  assert (Hl : lease_options broadcast_lease
                 {[ "subnet_mask" := VStr "255.255.255.0"; "interface_mtu" := VInt 1500 ]}).
  { eexists. split; [reflexivity | vm_compute; reflexivity]. }
  pose proof (C6_option_properties _ _ Hl) as H.
  unfold option_properties in H.
  repeat (apply Forall_cons_1 in H as [?P H]).
  split.
  - apply P1. vm_compute. reflexivity.
  - apply P2. vm_compute. reflexivity.
Defined.

(** ** The default gateway *)

Lemma LeaseOption_get_raises (p : LeaseOption) (l : Lease) (e : exn) :
  LeaseOption_get p l = Raise e ->
  e = TypeError ∨ (∃ k : pyval, e = KeyError k) ∨ e = MissingOptionError (opt p).
Proof.
  unfold LeaseOption_get.
  destruct (ack l) as [| | | | | |d]; cbn; try (intros [= <-]; auto).
  destruct (d !! "options") as [options|]; cbn; [| intros [= <-]; eauto].
  destruct options as [| | | | s |k|o]; cbn; try (intros [= <-]; auto).
  - destruct (str_contains _ s); cbn; intros [= <-]; auto.
  - destruct (existsb _ k); cbn; intros [= <-]; auto.
  - destruct (o !! lower (Option_name (opt p))) as [v|] eqn:Hv.
    + rewrite bool_decide_eq_true_2 by eauto. cbn. discriminate.
    + rewrite bool_decide_eq_false_2 by (intros [? ?]; discriminate).
      cbn. intros [= <-]. auto.
Qed.

Lemma py_index_0_IndexError (v : pyval) :
  py_index v 0 = Raise IndexError -> v = VList [] ∨ v = VStr "".
Proof.
  destruct v as [| | | | s |k|d]; cbn; try discriminate.
  - destruct s; [auto | discriminate].
  - destruct k; [auto | discriminate].
Qed.

(** C4.  With an options mapping [o] in the
    acknowledgement, [default_gateway] returns the first element of a
    non-empty routers list; without a router option it fails with
    [MissingOptionError] for the router option; and on an empty routers
    list it fails loudly as well, with [IndexError], the failure of the
    subscript [routers[0]] itself: neither a returned value nor the
    [MissingOptionError] of the absent case.  That failure still tells the
    case apart from every other one: for any lease at all,
    [default_gateway] raises [IndexError] only when routers resolved to an
    empty sequence. *)
Theorem C4_default_gateway (l : Lease) (o : gmap string pyval) :
  lease_options l o ->
  (∀ (r : pyval) (rs : list pyval),
      o !! "router" = Some (VList (r :: rs)) -> default_gateway l = Ok r) ∧
  (o !! "router" = None -> default_gateway l = Raise (MissingOptionError ROUTER)) ∧
  (o !! "router" = Some (VList []) ->
     default_gateway l = Raise IndexError ∧
     (∀ v : pyval, default_gateway l ≠ Ok v) ∧
     default_gateway l ≠ Raise (MissingOptionError ROUTER)) ∧
  (∀ l' : Lease,
      default_gateway l' = Raise IndexError ->
      routers l' = Ok (VList []) ∨ routers l' = Ok (VStr "")).
Proof.
  intros Hl. unfold default_gateway, routers.
  split; [| split; [| split]].
  - intros r rs Hr.
    rewrite (LeaseOption_get_present (mkLeaseOption ROUTER) l o _ Hl Hr).
    reflexivity.
  - intros Hr.
    rewrite (LeaseOption_get_missing (mkLeaseOption ROUTER) l o Hl Hr).
    reflexivity.
  - intros Hr.
    rewrite (LeaseOption_get_present (mkLeaseOption ROUTER) l o _ Hl Hr).
    cbn. repeat split; [intros v Hv | intros Hv]; discriminate.
  - intros l'.
    destruct (LeaseOption_get (mkLeaseOption ROUTER) l') as [v|e] eqn:Hget; cbn.
    + intros Hv. destruct (py_index_0_IndexError v Hv) as [-> | ->]; auto.
    + intros [= ->].
      destruct (LeaseOption_get_raises _ _ _ Hget) as [H | [[k H] | H]]; discriminate.
Qed.

Lemma C4_default_gateway_witness :
  default_gateway no_router_lease = Raise IndexError.
Proof.
  assert (Hl : lease_options no_router_lease {[ "router" := VList [] ]}).
  { eexists. split; [reflexivity | vm_compute; reflexivity]. }
  destruct (C4_default_gateway _ _ Hl) as (_ & _ & H & _).
  apply H. vm_compute. reflexivity.
Defined.

(** ** Timers *)

Lemma seconds_til_timer_present (l : Lease) (o : gmap string pyval) (timer : string)
      (delta : Z) (t : Q) (w : world) :
  lease_options l o ->
  o !! (timer +:+ "_time") = Some (VInt delta) ->
  obtained l = VFloat t ->
  _seconds_til_timer l timer w =
    (Ok (VFloat (t + inject_Z delta - clock w (ticks w))), tick w).
Proof.
  intros (d & Hack & Hopts) Hdelta Hobt.
  unfold _seconds_til_timer, try_except, mbind, M_bind, lift.
  rewrite Hack. cbn. rewrite Hopts. cbn. rewrite Hdelta, Hobt. reflexivity.
Qed.

Lemma seconds_til_timer_absent (l : Lease) (o : gmap string pyval) (timer : string) (w : world) :
  lease_options l o ->
  o !! (timer +:+ "_time") = None ->
  _seconds_til_timer l timer w = (Ok VNone, w).
Proof.
  intros (d & Hack & Hopts) Hdelta.
  unfold _seconds_til_timer, try_except, mbind, M_bind, lift.
  rewrite Hack. cbn. rewrite Hopts. cbn. rewrite Hdelta. reflexivity.
Qed.

Lemma seconds_til_timer_no_options (l : Lease) (d : gmap string pyval) (timer : string) (w : world) :
  ack l = VDict d ->
  d !! "options" = None ->
  _seconds_til_timer l timer w = (Ok VNone, w).
Proof.
  intros Hack Hopts.
  unfold _seconds_til_timer, try_except, mbind, M_bind, lift.
  rewrite Hack. cbn. rewrite Hopts. reflexivity.
Qed.

(** Whether a timer is [None], a number of seconds or a failure depends on
    the lease alone, never on the world it is read in. *)
Lemma seconds_til_timer_cases (l : Lease) (timer : string) :
  (∀ w : world, _seconds_til_timer l timer w = (Ok VNone, w)) ∨
  (∀ w : world, result (_seconds_til_timer l timer) w = Raise TypeError) ∨
  (∃ due : Q, ∀ w : world,
      _seconds_til_timer l timer w = (Ok (VFloat (due - clock w (ticks w))), tick w)).
Proof.
  unfold result, _seconds_til_timer, try_except, mbind, M_bind, lift.
  destruct (ack l) as [| | | | | |d]; cbn; auto.
  destruct (d !! "options") as [options|]; cbn; auto.
  destruct options as [| | | | | |o]; cbn; auto.
  destruct (o !! (timer +:+ "_time")) as [delta|]; cbn; auto.
  unfold py_add.
  destruct (as_num (obtained l)) as [x|] eqn:Hx, (as_num delta) as [y|] eqn:Hy.
  - right. right.
    destruct x as [x|x], y as [y|y]; cbn;
      [ exists (inject_Z (x + y)) | exists (inject_Z x + y)%Q
      | exists (x + inject_Z y)%Q | exists (x + y)%Q ]; reflexivity.
  - destruct (obtained l), delta; cbn in *; try discriminate; auto.
  - destruct (obtained l), delta; cbn in *; try discriminate; auto.
  - destruct (obtained l), delta; cbn in *; try discriminate; auto.
Qed.

(** ** Expiry *)

(** C5.  In every world, [expired] answers true exactly when
    [expiration_in] -- as [expired] reads it for the comparison, that is on
    the clock reading that follows the one spent on the test against
    [None] -- is a number of seconds [q] with [q <= 0].  When the options
    carry no lease_time, or the acknowledgement has no options entry at
    all, [expired] returns false: it does not raise, and it does not even
    read the clock. *)
Theorem C5_expired (l : Lease) (w : world) :
  (result (expired l) w = Ok true ↔
     ∃ q : Q, result (expiration_in l) (after (expiration_in l) w) = Ok (VFloat q) ∧
              (q <= 0)%Q) ∧
  (∀ o : gmap string pyval,
      lease_options l o -> o !! "lease_time" = None -> expired l w = (Ok false, w)) ∧
  (∀ d : gmap string pyval,
      ack l = VDict d -> d !! "options" = None -> expired l w = (Ok false, w)).
Proof.
  unfold result, after, expired, expiration_in, mbind, M_bind.
  split; [| split].
  - destruct (seconds_til_timer_cases l "lease") as [Hnone | [Hraise | [due Hdue]]].
    + rewrite !Hnone. cbn. split; [discriminate | intros (q & Hq & _); discriminate].
    + pose proof (Hraise w) as Hw. unfold result in Hw.
      destruct (_seconds_til_timer l "lease" w) as [r w1] eqn:Hrun.
      cbn in Hw. subst r. cbn.
      pose proof (Hraise w1) as Hw1. unfold result in Hw1. rewrite Hw1.
      split; [discriminate | intros (q & Hq & _); discriminate].
    + rewrite (Hdue w). cbn. rewrite (Hdue (tick w)). cbn.
      unfold lift, py_le_num. cbn.
      split.
      * intros [= Hle]. eexists. split; [reflexivity |].
        apply Qle_bool_iff in Hle. exact Hle.
      * intros (q & [= <-] & Hle). f_equal. apply Qle_bool_iff. exact Hle.
  - intros o Hl Hlt.
    rewrite (seconds_til_timer_absent l o "lease" w Hl Hlt). reflexivity.
  - intros d Hack Hopts.
    rewrite (seconds_til_timer_no_options l d "lease" w Hack Hopts). reflexivity.
Qed.

(** ** Renewal and rebinding *)

Lemma renewal_in_shape : renewal_in = timer_or_fallback "renewal" (4 # 10) (6 # 10).
Proof. reflexivity. Qed.

Lemma rebinding_in_shape : rebinding_in = timer_or_fallback "rebinding" (75 # 100) (90 # 100).
Proof. reflexivity. Qed.

Section Fallback.

Variables (timer : string) (lo hi : Q).
Variables (l : Lease) (o : gmap string pyval) (t : Q).
Hypothesis Hopts : lease_options l o.
Hypothesis Hobt : obtained l = VFloat t.

(** An explicit timer that is not zero is returned as it is: no draw is
    made and the lease time is not looked at. *)
Lemma timer_or_fallback_explicit (delta : Z) (w : world) :
  o !! (timer +:+ "_time") = Some (VInt delta) ->
  ¬ (t + inject_Z delta - clock w (ticks w) == 0)%Q ->
  timer_or_fallback timer lo hi l w =
    (Ok (VFloat (t + inject_Z delta - clock w (ticks w))), tick w).
Proof.
  intros Hdelta Hnz.
  unfold timer_or_fallback, mbind, M_bind.
  rewrite (seconds_til_timer_present l o timer delta t w Hopts Hdelta Hobt).
  cbn.
  destruct (Qeq_bool _ 0) eqn:Hz; [| reflexivity].
  apply Qeq_bool_iff in Hz. contradiction.
Qed.

(** An explicit timer that is exactly zero is falsy, so the fallback is
    taken even though the option is there. *)
Lemma timer_or_fallback_due_now (delta lease_time : Z) (w : world) :
  o !! (timer +:+ "_time") = Some (VInt delta) ->
  o !! "lease_time" = Some (VInt lease_time) ->
  (t + inject_Z delta - clock w (ticks w) == 0)%Q ->
  timer_or_fallback timer lo hi l w =
    (Ok (VFloat ((t + inject_Z lease_time - clock w (S (ticks w)))
                 * (lo + (hi - lo) * rng w (draws w)))),
     drawn (tick (tick w))).
Proof.
  intros Hdelta Hlt Hz.
  unfold timer_or_fallback, expiration_in, mbind, M_bind.
  rewrite (seconds_til_timer_present l o timer delta t w Hopts Hdelta Hobt).
  cbn. apply Qeq_bool_iff in Hz. rewrite Hz. cbn.
  rewrite (seconds_til_timer_present l o "lease" lease_time t (tick w) Hopts Hlt Hobt).
  reflexivity.
Qed.

(** Without the explicit option, the expiration is scaled by one fresh
    draw. *)
Lemma timer_or_fallback_absent (lease_time : Z) (w : world) :
  o !! (timer +:+ "_time") = None ->
  o !! "lease_time" = Some (VInt lease_time) ->
  timer_or_fallback timer lo hi l w =
    (Ok (VFloat ((t + inject_Z lease_time - clock w (ticks w))
                 * (lo + (hi - lo) * rng w (draws w)))),
     drawn (tick w)).
Proof.
  intros Hdelta Hlt.
  unfold timer_or_fallback, expiration_in, mbind, M_bind.
  rewrite (seconds_til_timer_absent l o timer w Hopts Hdelta).
  cbn.
  rewrite (seconds_til_timer_present l o "lease" lease_time t w Hopts Hlt Hobt).
  reflexivity.
Qed.

End Fallback.

(** C2.  The lease of the tests (lease_time 120, renewal_time 60,
    rebinding_time 105) read at the very second its renewal is due: the
    explicit renewal timer is [obtained + 60 - now = 0], a falsy float,
    so [renewal_in] does not return it.  It reads the clock again, makes a
    draw and returns the jittered fallback [60 * 0.5 = 30], a value that
    depends on the lease time.  [rebinding_in] read when rebinding is due
    does the same and returns [15 * 0.825 = 12.375] in place of 0. *)
Theorem C2_timer_due_now_is_jittered :
  (∃ v : Q,
      renewal_in fake_lease (frozen_world (obtained_at + 60)) =
        (Ok (VFloat v), drawn (tick (tick (frozen_world (obtained_at + 60))))) ∧
      (v == 30)%Q ∧
      ¬ (v == obtained_at + 60 - (obtained_at + 60))%Q) ∧
  (∃ v : Q,
      rebinding_in fake_lease (frozen_world (obtained_at + 105)) =
        (Ok (VFloat v), drawn (tick (tick (frozen_world (obtained_at + 105))))) ∧
      (v == 12375 # 1000)%Q ∧
      ¬ (v == obtained_at + 105 - (obtained_at + 105))%Q).
Proof.
  assert (Hl : lease_options fake_lease fake_options).
  { eexists. split; [reflexivity | vm_compute; reflexivity]. }
  split.
  - eexists. split; [| split].
    + rewrite renewal_in_shape.
      apply (timer_or_fallback_due_now "renewal" _ _ fake_lease fake_options obtained_at
               Hl eq_refl 60 120); vm_compute; reflexivity.
    + vm_compute. reflexivity.
    + vm_compute. discriminate.
  - eexists. split; [| split].
    + rewrite rebinding_in_shape.
      apply (timer_or_fallback_due_now "rebinding" _ _ fake_lease fake_options obtained_at
               Hl eq_refl 105 120); vm_compute; reflexivity.
    + vm_compute. reflexivity.
    + vm_compute. discriminate.
Qed.

Lemma uniform_in_range (lo hi r : Q) :
  (lo <= hi)%Q -> (0 <= r)%Q -> (r < 1)%Q ->
  (lo <= lo + (hi - lo) * r)%Q ∧ (lo + (hi - lo) * r <= hi)%Q.
Proof. intros. split; nra. Qed.

Lemma scaled_in_range (e u lo hi : Q) :
  (lo <= u)%Q -> (u <= hi)%Q ->
  ((0 <= e)%Q -> (lo * e <= e * u)%Q ∧ (e * u <= hi * e)%Q) ∧
  ((e <= 0)%Q -> (hi * e <= e * u)%Q ∧ (e * u <= lo * e)%Q).
Proof. intros. split; intros; split; nra. Qed.

Section FallbackRange.

Variables (timer : string) (lo hi : Q).
Hypothesis Hlohi : (lo < hi)%Q.
Variables (l : Lease) (o : gmap string pyval) (t : Q) (lease_time : Z).
Hypothesis Hopts : lease_options l o.
Hypothesis Hobt : obtained l = VFloat t.
Hypothesis Habsent : o !! (timer +:+ "_time") = None.
Hypothesis Hlt : o !! "lease_time" = Some (VInt lease_time).

(** One sample of the fallback: the expiration of this very read times
    a factor between [lo] and [hi] made from the next draw. *)
Lemma fallback_sample (w : world) :
  rng_in_range w ->
  ∃ e u : Q,
    expiration_in l w = (Ok (VFloat e), tick w) ∧
    e = (t + inject_Z lease_time - clock w (ticks w))%Q ∧
    u = (lo + (hi - lo) * rng w (draws w))%Q ∧
    timer_or_fallback timer lo hi l w = (Ok (VFloat (e * u)), drawn (tick w)) ∧
    (lo <= u)%Q ∧ (u <= hi)%Q ∧
    ((0 <= e)%Q -> (lo * e <= e * u)%Q ∧ (e * u <= hi * e)%Q) ∧
    ((e <= 0)%Q -> (hi * e <= e * u)%Q ∧ (e * u <= lo * e)%Q).
Proof.
  intros Hrng. destruct (Hrng (draws w)) as [Hr0 Hr1].
  destruct (uniform_in_range lo hi (rng w (draws w))) as [Hu0 Hu1]; [lra | done | done |].
  eexists _, _.
  split; [apply (seconds_til_timer_present l o "lease" lease_time t w Hopts Hlt Hobt) |].
  split; [reflexivity |]. split; [reflexivity |].
  split; [apply (timer_or_fallback_absent timer lo hi l o t Hopts Hobt lease_time w Habsent Hlt) |].
  split; [exact Hu0 |]. split; [exact Hu1 |].
  apply scaled_in_range; assumption.
Qed.

End FallbackRange.



Lemma frozen_world_rng_in_range (now : Q) : rng_in_range (frozen_world now).
Proof.
  intros n. cbn. unfold Qle, Qlt. cbn. lia.
Qed.

Lemma bare_lease_options : lease_options bare_lease bare_options.
Proof. eexists. split; [reflexivity | vm_compute; reflexivity]. Qed.



(** The explicit timer, whenever it is not zero: returned without jitter,
    without a draw and whatever the lease time. *)
Lemma renewal_in_explicit (l : Lease) (o : gmap string pyval) (t : Q) (delta : Z) (w : world) :
  lease_options l o ->
  obtained l = VFloat t ->
  o !! "renewal_time" = Some (VInt delta) ->
  ¬ (t + inject_Z delta - clock w (ticks w) == 0)%Q ->
  renewal_in l w = (Ok (VFloat (t + inject_Z delta - clock w (ticks w))), tick w).
Proof.
  intros Hopts Hobt Hdelta Hnz. rewrite renewal_in_shape.
  apply (timer_or_fallback_explicit "renewal" _ _ l o t Hopts Hobt delta w Hdelta Hnz).
Qed.

Lemma rebinding_in_explicit (l : Lease) (o : gmap string pyval) (t : Q) (delta : Z) (w : world) :
  lease_options l o ->
  obtained l = VFloat t ->
  o !! "rebinding_time" = Some (VInt delta) ->
  ¬ (t + inject_Z delta - clock w (ticks w) == 0)%Q ->
  rebinding_in l w = (Ok (VFloat (t + inject_Z delta - clock w (ticks w))), tick w).
Proof.
  intros Hopts Hobt Hdelta Hnz. rewrite rebinding_in_shape.
  apply (timer_or_fallback_explicit "rebinding" _ _ l o t Hopts Hobt delta w Hdelta Hnz).
Qed.

(** ** Lease files *)

Lemma split_on_no_sep (i : string) :
  has_char slash i = false -> split_on slash i = [i].
Proof.
  induction i as [| c s IH]; cbn; [reflexivity |].
  intros H. apply orb_false_iff in H as [Hc Hs].
  rewrite Hc, (IH Hs). reflexivity.
Qed.

Lemma parse_path_plain (i : string) :
  plain_name i -> parse_path i = mkPath false [i].
Proof.
  intros (Hne & Hdot & Hslash).
  unfold parse_path. rewrite (split_on_no_sep i Hslash). cbn.
  apply String.eqb_neq in Hne, Hdot. rewrite Hne, Hdot. cbn.
  f_equal.
  destruct i as [| c s]; [reflexivity |].
  cbn in Hslash. apply orb_false_iff in Hslash as [Hc _].
  change (String.prefix "/" (String c s))
    with (if ascii_dec "/" c then String.prefix "" s else false).
  destruct (ascii_dec "/" c) as [<- | _]; [discriminate Hc | reflexivity].
Qed.

Lemma joinpath_plain (p : Path) (i : string) :
  plain_name i -> joinpath p i = mkPath (absolute p) (parts p ++ [i]).
Proof.
  intros Hi. unfold joinpath. rewrite (parse_path_plain i Hi). reflexivity.
Qed.

Lemma name_snoc (a : bool) (ps : list string) (n : string) :
  name (mkPath a (ps ++ [n])) = n.
Proof. unfold name. cbn. apply List.last_last. Qed.

Lemma with_suffix_snoc (a : bool) (ps : list string) (n : string) :
  n ≠ "" ->
  with_suffix (mkPath a (ps ++ [n])) ".lease.json" = Ok (mkPath a (ps ++ [lease_file_name n])).
Proof.
  intros Hne. unfold with_suffix, suffix. rewrite !name_snoc.
  apply String.eqb_neq in Hne. rewrite Hne. cbn [parts absolute].
  rewrite List.removelast_last. reflexivity.
Qed.

Lemma get_path_plain (i : string) (w : world) :
  plain_name i -> JSONFileLease._get_path i w = (Ok (lease_file w i), w).
Proof.
  intros Hi.
  unfold JSONFileLease._get_path, JSONFileLease._get_lease_dir, Path_cwd, mbind, M_bind, lift.
  rewrite (joinpath_plain _ i Hi), with_suffix_snoc by apply Hi.
  reflexivity.
Qed.

Lemma parent_lease_file (w : world) (i : string) : parent (lease_file w i) = cwd w.
Proof.
  unfold parent, lease_file. cbn. rewrite List.removelast_last.
  destruct (cwd w). reflexivity.
Qed.

(** The lease path is a function of the working directory and of the
    name; computing it changes nothing. *)
Lemma get_path_run (i : string) (w : world) :
  JSONFileLease._get_path i w = (with_suffix (joinpath (cwd w) i) ".lease.json", w).
Proof. reflexivity. Qed.

(** ** Loading *)

Section Load.

Variables (i : string) (p : Path) (w : world).
Hypothesis Hpath : result (JSONFileLease._get_path i) w = Ok p.

Lemma get_path_eq : JSONFileLease._get_path i w = (Ok p, w).
Proof.
  unfold result in Hpath. rewrite get_path_run in *.
  change (with_suffix (joinpath (cwd w) i) ".lease.json" = Ok p) in Hpath.
  rewrite Hpath. reflexivity.
Qed.

(** No file and no directory at the lease path: [None], with an
    informational record. *)
Lemma load_missing_file :
  files w !! path_str p = None ->
  path_str p ∉ dirs w ->
  JSONFileLease.load i w = (Ok None, logged (no_lease_record i p) w).
Proof.
  intros Hfile Hdir.
  unfold JSONFileLease.load, mbind, M_bind. rewrite get_path_eq.
  unfold try_except, open_rt. rewrite Hfile.
  rewrite bool_decide_eq_false_2 by exact Hdir. reflexivity.
Qed.

(** Text that is not JSON: the decoder's [JSONDecodeError] matches
    neither [except] clause and leaves [load]. *)
Lemma load_corrupt_file :
  files w !! path_str p = Some CorruptText ->
  JSONFileLease.load i w = (Raise JSONDecodeError, logged (loading_record i p) w).
Proof.
  intros Hfile.
  unfold JSONFileLease.load, mbind, M_bind. rewrite get_path_eq.
  unfold try_except, open_rt. rewrite Hfile. reflexivity.
Qed.

(** A JSON document: everything hinges on the constructor. *)
Lemma load_document (v : pyval) :
  files w !! path_str p = Some (JsonText v) ->
  JSONFileLease.load i w =
    match Lease_init v (logged (loading_record i p) w) with
    | (Ok l, w') => (Ok (Some l), w')
    | (Raise TypeError, w') => (Ok None, logged (load_error_record TypeError) w')
    | (Raise (FileNotFoundError f), w') => (Ok None, logged (no_lease_record i p) w')
    | (Raise e, w') => (Raise e, w')
    end.
Proof.
  intros Hfile.
  unfold JSONFileLease.load, mbind, M_bind. rewrite get_path_eq.
  unfold try_except, open_rt. rewrite Hfile. cbn.
  destruct (Lease_init v _) as [[l | e] w']; [reflexivity |].
  destruct e; reflexivity.
Qed.

End Load.

(** The constructor either builds a lease or raises [TypeError]. *)
Lemma Lease_init_outcome (v : pyval) (w : world) :
  (∃ (l : Lease) (w' : world), Lease_init v w = (Ok l, w')) ∨
  Lease_init v w = (Raise TypeError, w).
Proof.
  unfold Lease_init.
  destruct v as [| | | | | |d]; auto.
  case_bool_decide; auto.
  destruct (d !! "ack"), (d !! "interface"), (d !! "server_mac"); auto.
  left. destruct (d !! "obtained"); cbn; eauto.
Qed.

(** A document whose keys are exactly the four fields is accepted with
    its values as they are. *)
Lemma Lease_init_exact_keys (d : gmap string pyval) (w : world) :
  dom d = Lease_fields ->
  ∃ l : Lease,
    Lease_init (VDict d) w = (Ok l, w) ∧
    d !! "ack" = Some (ack l) ∧ d !! "interface" = Some (interface l) ∧
    d !! "server_mac" = Some (server_mac l) ∧ d !! "obtained" = Some (obtained l).
Proof.
  intros Hdom.
  assert (Hin : ∀ k : string, k ∈ Lease_fields -> is_Some (d !! k)).
  { intros k Hk. apply elem_of_dom. rewrite Hdom. exact Hk. }
  destruct (Hin "ack") as [a Ha]; [unfold Lease_fields; set_solver |].
  destruct (Hin "interface") as [n Hn]; [unfold Lease_fields; set_solver |].
  destruct (Hin "server_mac") as [m Hm]; [unfold Lease_fields; set_solver |].
  destruct (Hin "obtained") as [b Hb]; [unfold Lease_fields; set_solver |].
  exists (mkLease a n m b).
  unfold Lease_init. rewrite bool_decide_eq_true_2 by (rewrite Hdom; done).
  rewrite Ha, Hn, Hm, Hb. auto.
Qed.

Lemma Lease_init_asdict (l : Lease) (w : world) :
  Lease_init (asdict l) w = (Ok l, w).
Proof.
  unfold Lease_init, asdict.
  rewrite bool_decide_eq_true_2.
  - simplify_map_eq. destruct l. reflexivity.
  - rewrite !dom_insert_L, dom_empty_L. unfold Lease_fields. set_solver.
Qed.

(** A file that [json.load] decodes to a value never makes [load] raise: it
    returns a lease or [None]. *)
Lemma load_json_never_raises (i : string) (p : Path) (w : world) (v : pyval) :
  result (JSONFileLease._get_path i) w = Ok p ->
  files w !! path_str p = Some (JsonText v) ->
  ∃ r : option Lease, result (JSONFileLease.load i) w = Ok r.
Proof.
  intros Hpath Hfile. unfold result.
  rewrite (load_document i p w Hpath v Hfile).
  destruct (Lease_init_outcome v (logged (loading_record i p) w)) as [(l & w' & ->) | ->];
    cbn; eauto.
Qed.

(** C3.  Whenever the lease file of the requested interface holds text
    that is not JSON, [load] raises [JSONDecodeError]: it neither returns
    [None] nor logs a warning. *)
Theorem C3_load_corrupt_file_raises (i : string) (p : Path) (w : world) :
  result (JSONFileLease._get_path i) w = Ok p ->
  files w !! path_str p = Some CorruptText ->
  JSONFileLease.load i w = (Raise JSONDecodeError, logged (loading_record i p) w).
Proof.
  intros Hpath Hfile. apply load_corrupt_file; assumption.
Qed.

Lemma C3_load_corrupt_file_raises_witness :
  result (JSONFileLease.load "eth0") (world_with_file "eth0.lease.json" CorruptText)
  = Raise JSONDecodeError.
Proof.
  unfold result.
  rewrite (C3_load_corrupt_file_raises "eth0" (mkPath true ["var"; "lib"; "dhcp"; "eth0.lease.json"])).
  - reflexivity.
  - vm_compute. reflexivity.
  - vm_compute. reflexivity.
Defined.

(** C10.  [load] accepts every document whose keys are exactly ack,
    interface, server_mac and obtained, and builds the lease from its
    values as they are.  So the lease it returns may name another
    interface than the one asked for, may have an acknowledgement without
    options (reading an option then raises [KeyError], not
    [MissingOptionError]), and may carry a lease time that is not a number
    ([expired] then raises [TypeError]). *)
Theorem C10_load_does_not_validate :
  (∀ (i : string) (p : Path) (w : world) (d : gmap string pyval),
      result (JSONFileLease._get_path i) w = Ok p ->
      files w !! path_str p = Some (JsonText (VDict d)) ->
      dom d = Lease_fields ->
      ∃ l : Lease,
        result (JSONFileLease.load i) w = Ok (Some l) ∧
        d !! "ack" = Some (ack l) ∧ d !! "interface" = Some (interface l) ∧
        d !! "server_mac" = Some (server_mac l) ∧ d !! "obtained" = Some (obtained l)) ∧
  result (JSONFileLease.load "eth0") (world_with_file "eth0.lease.json" (JsonText (asdict wlan0_lease)))
    = Ok (Some wlan0_lease) ∧
  interface wlan0_lease ≠ VStr "eth0" ∧
  result (JSONFileLease.load "eth0") (world_with_file "eth0.lease.json" (JsonText (asdict hollow_lease)))
    = Ok (Some hollow_lease) ∧
  subnet_mask hollow_lease = Raise (KeyError (VStr "options")) ∧
  ip hollow_lease = Raise (KeyError (VStr "yiaddr")) ∧
  result (JSONFileLease.load "eth0") (world_with_file "eth0.lease.json" (JsonText (asdict soon_lease)))
    = Ok (Some soon_lease) ∧
  result (expired soon_lease) (frozen_world obtained_at) = Raise TypeError ∧
  result (renewal_in soon_lease) (frozen_world obtained_at) = Raise TypeError.
Proof.
  split.
  { intros i p w d Hpath Hfile Hdom.
    destruct (Lease_init_exact_keys d (logged (loading_record i p) w) Hdom)
      as (l & Hinit & Hfields).
    exists l. split; [| exact Hfields].
    unfold result. rewrite (load_document i p w Hpath _ Hfile), Hinit. reflexivity. }
  repeat split; try (vm_compute; reflexivity).
  discriminate.
Qed.

(** ** Dumping, then loading *)

(** What a successful [dump] did: it computed the lease path, logged, and
    wrote the lease as a JSON document there. *)
Lemma dump_success (l : Lease) (i : string) (w w' : world) :
  interface l = VStr i ->
  JSONFileLease.dump l w = (Ok tt, w') ->
  ∃ p : Path,
    with_suffix (joinpath (cwd w) i) ".lease.json" = Ok p ∧
    w' = written (path_str p) (JsonText (asdict l)) (logged (writing_record i p) w).
Proof.
  intros Hi. unfold JSONFileLease.dump. rewrite Hi.
  unfold mbind, M_bind. rewrite get_path_run.
  destruct (with_suffix _ _) as [p | e]; [| discriminate].
  unfold LOG, open_wt. cbn [dirs logged].
  repeat case_bool_decide; try discriminate.
  intros [= <-]. exists p. split; reflexivity.
Qed.

(** A lease dumped for interface [i] is what [load] returns for any
    interface [j] that has the same lease path. *)
Lemma dump_then_load_same_path (l : Lease) (i j : string) (w w' : world) :
  interface l = VStr i ->
  JSONFileLease.dump l w = (Ok tt, w') ->
  with_suffix (joinpath (cwd w) j) ".lease.json"
    = with_suffix (joinpath (cwd w) i) ".lease.json" ->
  result (JSONFileLease.load j) w' = Ok (Some l).
Proof.
  intros Hi Hdump Hsame.
  destruct (dump_success l i w w' Hi Hdump) as (p & Hp & ->).
  assert (Hpath : result (JSONFileLease._get_path j)
                    (written (path_str p) (JsonText (asdict l)) (logged (writing_record i p) w))
                  = Ok p).
  { unfold result. rewrite get_path_run.
    change (with_suffix (joinpath (cwd w) j) ".lease.json" = Ok p).
    rewrite Hsame. exact Hp. }
  unfold result at 1.
  rewrite (load_document j p _ Hpath (asdict l)).
  - rewrite Lease_init_asdict. reflexivity.
  - cbn. apply lookup_insert_eq.
Qed.

(** [dump] succeeds for a plain interface name as soon as the working
    directory exists and the lease path is not a directory. *)
Lemma dump_plain_name (l : Lease) (i : string) (w : world) :
  interface l = VStr i ->
  plain_name i ->
  cwd_exists w ->
  path_str (lease_file w i) ∉ dirs w ->
  JSONFileLease.dump l w =
    (Ok tt, written (path_str (lease_file w i)) (JsonText (asdict l))
                    (logged (writing_record i (lease_file w i)) w)).
Proof.
  intros Hi Hplain Hcwd Hnodir. unfold JSONFileLease.dump. rewrite Hi.
  unfold mbind, M_bind. rewrite (get_path_plain i w Hplain).
  unfold LOG, open_wt. cbn [dirs logged].
  rewrite bool_decide_eq_false_2 by exact Hnodir.
  rewrite parent_lease_file.
  rewrite bool_decide_eq_true_2 by exact Hcwd.
  reflexivity.
Qed.

(** C8.  Let [l] be a lease for the interface named [i].  Whenever
    [dump] succeeds, [load] for [i] in the resulting world returns a
    lease: the dumped lease itself, hence with the same ip, subnet_mask,
    obtained (the very same float) and options.  And [dump] does succeed
    when [i] is a plain name, the working directory exists and the lease
    path is not a directory. *)
Theorem C8_dump_then_load (l : Lease) (i : string) (w : world) :
  interface l = VStr i ->
  (∀ w' : world,
      JSONFileLease.dump l w = (Ok tt, w') ->
      ∃ l' : Lease,
        result (JSONFileLease.load i) w' = Ok (Some l') ∧
        l' = l ∧
        ip l' = ip l ∧
        subnet_mask l' = subnet_mask l ∧
        obtained l' = obtained l ∧
        py_getitem (ack l') "options" = py_getitem (ack l) "options") ∧
  (plain_name i -> cwd_exists w -> path_str (lease_file w i) ∉ dirs w ->
   ∃ w' : world, JSONFileLease.dump l w = (Ok tt, w')).
Proof.
  intros Hi. split.
  - intros w' Hdump. exists l.
    split; [| repeat split].
    apply (dump_then_load_same_path l i i w w' Hi Hdump). reflexivity.
  - intros Hplain Hcwd Hnodir. eexists.
    apply (dump_plain_name l i w Hi Hplain Hcwd Hnodir).
Qed.

Lemma plain_name_eth0 : plain_name "eth0".
Proof. repeat split; discriminate. Qed.

Lemma frozen_world_cwd_exists (now : Q) : cwd_exists (frozen_world now).
Proof. unfold cwd_exists. vm_compute. reflexivity. Qed.

Lemma C8_dump_then_load_witness :
  ∃ w' : world,
    JSONFileLease.dump fake_lease (frozen_world obtained_at) = (Ok tt, w') ∧
    result (JSONFileLease.load "eth0") w' = Ok (Some fake_lease).
Proof.
  destruct (C8_dump_then_load fake_lease "eth0" (frozen_world obtained_at) eq_refl)
    as [Hload Hdump].
  destruct Hdump as [w' Hw'].
  - exact plain_name_eth0.
  - apply frozen_world_cwd_exists.
  - vm_compute. discriminate.
  - exists w'. split; [exact Hw' |].
    destruct (Hload w' Hw') as (l' & Hl' & -> & _). exact Hl'.
Defined.

(** C9.  The interface names [eth0.100] and [eth0.200] differ, yet in
    every world both have the lease path [eth0.lease.json] in the working
    directory, because [with_suffix] replaces what follows the last dot of
    the name.  A lease dumped for [eth0.100] is therefore what [load]
    returns for [eth0.200]. *)
Theorem C9_lease_path_not_injective :
  "eth0.100" ≠ "eth0.200" ∧
  (∀ w : world,
      JSONFileLease._get_path "eth0.100" w
        = (Ok (mkPath (absolute (cwd w)) (parts (cwd w) ++ ["eth0.lease.json"])), w) ∧
      JSONFileLease._get_path "eth0.200" w
        = (Ok (mkPath (absolute (cwd w)) (parts (cwd w) ++ ["eth0.lease.json"])), w)) ∧
  (∀ (l : Lease) (w w' : world),
      interface l = VStr "eth0.100" ->
      JSONFileLease.dump l w = (Ok tt, w') ->
      result (JSONFileLease.load "eth0.200") w' = Ok (Some l)) ∧
  result (JSONFileLease.dump vlan100_lease;; JSONFileLease.load "eth0.200")
         (frozen_world obtained_at)
    = Ok (Some vlan100_lease).
Proof.
  assert (H100 : plain_name "eth0.100") by (repeat split; discriminate).
  assert (H200 : plain_name "eth0.200") by (repeat split; discriminate).
  split; [discriminate |].
  split; [| split].
  - intros w. split.
    + apply (get_path_plain "eth0.100" w H100).
    + apply (get_path_plain "eth0.200" w H200).
  - intros l w w' Hi Hdump.
    apply (dump_then_load_same_path l "eth0.100" "eth0.200" w w' Hi Hdump).
    pose proof (get_path_plain "eth0.100" w H100) as E1.
    pose proof (get_path_plain "eth0.200" w H200) as E2.
    rewrite get_path_run in E1, E2.
    injection E1 as ->. injection E2 as ->. reflexivity.
  - vm_compute. reflexivity.
Qed.

Lemma C9_lease_path_not_injective_witness :
  ∃ w' : world,
    JSONFileLease.dump vlan100_lease (frozen_world obtained_at) = (Ok tt, w') ∧
    result (JSONFileLease.load "eth0.200") w' = Ok (Some vlan100_lease).
Proof.
  destruct C9_lease_path_not_injective as (_ & _ & Hload & _).
  eexists. split.
  - apply dump_plain_name.
    + reflexivity.
    + repeat split; discriminate.
    + apply frozen_world_cwd_exists.
    + vm_compute. discriminate.
  - eapply Hload; [reflexivity |].
    apply dump_plain_name.
    + reflexivity.
    + repeat split; discriminate.
    + apply frozen_world_cwd_exists.
    + vm_compute. discriminate.
Defined.

Lemma C5_expired_witness :
  result (expired fake_lease) (frozen_world (obtained_at + 121)) = Ok true ∧
  expired timeless_lease (frozen_world obtained_at) = (Ok false, frozen_world obtained_at).
Proof.
  split.
  - destruct (C5_expired fake_lease (frozen_world (obtained_at + 121))) as ([_ Hiff] & _ & _).
    apply Hiff. eexists. split; [vm_compute; reflexivity |].
    vm_compute. discriminate.
  - destruct (C5_expired timeless_lease (frozen_world obtained_at)) as (_ & Habsent & _).
    apply (Habsent timeless_options).
    + eexists. split; [reflexivity | vm_compute; reflexivity].
    + vm_compute. reflexivity.
Defined.

Lemma C10_load_does_not_validate_witness :
  ∃ l : Lease,
    result (JSONFileLease.load "eth0")
           (world_with_file "eth0.lease.json" (JsonText (asdict hollow_lease)))
      = Ok (Some l) ∧
    interface l = VInt 5.
Proof.
  destruct C10_load_does_not_validate as (Hall & _).
  destruct (Hall "eth0" (mkPath true ["var"; "lib"; "dhcp"; "eth0.lease.json"])
              (world_with_file "eth0.lease.json" (JsonText (asdict hollow_lease)))
              (<["ack" := VDict ∅]>
               (<["interface" := VInt 5]>
                (<["server_mac" := VNone]>
                 (<["obtained" := VStr "yesterday"]> ∅)))))
    as (l & Hload & _ & Hi & _).
  - vm_compute. reflexivity.
  - vm_compute. reflexivity.
  - vm_compute. reflexivity.
  - exists l. split; [exact Hload |].
    rewrite lookup_insert_ne, lookup_insert_eq in Hi by discriminate.
    injection Hi as <-. reflexivity.
Defined.

(** ** The hook orchestrator *)

Lemma settle_exceeds (timeout : Q) (b : Hooks.behaviour) :
  Hooks.exceeds timeout b -> Hooks.settle timeout b = (Hooks.TimedOut, timeout).
Proof.
  destruct b as [d | d description |]; cbn; intros H; try reflexivity;
    (destruct (Qle_bool d timeout) eqn:Hle; [apply Qle_bool_iff in Hle; lra | reflexivity]).
Qed.

Lemma settle_raises (timeout d : Q) (description : string) :
  (d <= timeout)%Q ->
  Hooks.settle timeout (Hooks.Raises d description) = (Hooks.Failed description, d).
Proof.
  intros H. cbn. apply Qle_bool_iff in H. rewrite H. reflexivity.
Qed.

Lemma returned_after_all (times : list Q) (s : Q) :
  In s times -> (s <= fold_right Qmax 0 times)%Q.
Proof.
  induction times as [| x xs IH]; cbn; [intros [] |].
  intros [-> | Hin].
  - apply Q.le_max_l.
  - apply (Qle_trans _ _ _ (IH Hin)). apply Q.le_max_r.
Qed.

Lemma run_hooks_outcome (hooks : list Hooks.Hook) (lease : Lease)
      (trigger : Hooks.Trigger) (timeout : Q) (h : Hooks.Hook) :
  In h hooks ->
  let s := Hooks.settle timeout (Hooks.hook_body h lease) in
  let r := Hooks.run_hooks hooks lease trigger timeout in
  In (Hooks.hook_name h, fst s) (Hooks.outcomes r) ∧
  (∀ m : string, Hooks.error_message (Hooks.hook_name h) (fst s) = Some m ->
                 In m (Hooks.errors r)) ∧
  (snd s <= Hooks.returned_at r)%Q.
Proof.
  intros Hin s r. subst s r. unfold Hooks.run_hooks. cbn.
  repeat split.
  - rewrite map_map. cbn.
    apply (in_map (fun x => (Hooks.hook_name x,
                             fst (Hooks.settle timeout (Hooks.hook_body x lease)))) _ _ Hin).
  - intros m Hm. apply list_elem_of_In, list_elem_of_omap.
    exists (Hooks.hook_name h, Hooks.settle timeout (Hooks.hook_body h lease)).
    split; [| exact Hm].
    apply list_elem_of_In.
    apply (in_map (fun x => (Hooks.hook_name x,
                             Hooks.settle timeout (Hooks.hook_body x lease))) _ _ Hin).
  - apply returned_after_all. rewrite map_map. cbn.
    apply (in_map (fun x => snd (Hooks.settle timeout (Hooks.hook_body x lease))) _ _ Hin).
Qed.

(** C1.  [run_hooks] is a total function: for every sequence of hooks,
    lease, trigger and timeout it returns a report, whatever the hooks do.
    The report records exactly one terminal outcome per hook, in order.
    For each hook of the sequence: if its body raises within the timeout,
    the outcome is [Failed] and the error ["Hook <name> failed:
    <description>"] is logged; if its body needs more than the timeout
    (or never finishes), the outcome is [TimedOut] and the error ["Hook
    '<name>' timed out"] is logged; and the run returns no earlier than
    the moment that hook settled. *)
Theorem C1_run_hooks_contains_misbehaviour (hooks : list Hooks.Hook) (lease : Lease)
        (trigger : Hooks.Trigger) (timeout : Q) :
  let r := Hooks.run_hooks hooks lease trigger timeout in
  map fst (Hooks.outcomes r) = map Hooks.hook_name hooks ∧
  ∀ h : Hooks.Hook,
    In h hooks ->
    (∀ (d : Q) (description : string),
        Hooks.hook_body h lease = Hooks.Raises d description ->
        (d <= timeout)%Q ->
        In (Hooks.hook_name h, Hooks.Failed description) (Hooks.outcomes r) ∧
        In ("Hook " +:+ Hooks.hook_name h +:+ " failed: " +:+ description) (Hooks.errors r)) ∧
    (Hooks.exceeds timeout (Hooks.hook_body h lease) ->
        In (Hooks.hook_name h, Hooks.TimedOut) (Hooks.outcomes r) ∧
        In ("Hook '" +:+ Hooks.hook_name h +:+ "' timed out") (Hooks.errors r)) ∧
    (∃ t : Hooks.terminal,
        In (Hooks.hook_name h, t) (Hooks.outcomes r) ∧
        t = fst (Hooks.settle timeout (Hooks.hook_body h lease))) ∧
    (snd (Hooks.settle timeout (Hooks.hook_body h lease)) <= Hooks.returned_at r)%Q.
Proof.
  cbv zeta. split.
  - unfold Hooks.run_hooks. cbn. rewrite !map_map. reflexivity.
  - intros h Hin.
    destruct (run_hooks_outcome hooks lease trigger timeout h Hin) as (Hout & Herr & Hret).
    split; [| split; [| split]].
    + intros d description Hbody Hd.
      rewrite Hbody, (settle_raises timeout d description Hd) in Hout, Herr.
      split; [exact Hout | apply Herr; reflexivity].
    + intros Hex.
      rewrite (settle_exceeds timeout _ Hex) in Hout, Herr.
      split; [exact Hout | apply Herr; reflexivity].
    + eexists. split; [exact Hout | reflexivity].
    + exact Hret.
Qed.

Lemma C1_run_hooks_contains_misbehaviour_witness :
  In "Hook 'sleepy_hook' timed out"
     (Hooks.errors (Hooks.run_hooks [Hooks.sleepy_hook; Hooks.failing_hook]
                                    fake_lease Hooks.BOUND (1 # 10))) ∧
  In "Hook failing_hook failed: RuntimeError('boom')"
     (Hooks.errors (Hooks.run_hooks [Hooks.sleepy_hook; Hooks.failing_hook]
                                    fake_lease Hooks.BOUND (1 # 10))).
Proof.
  destruct (C1_run_hooks_contains_misbehaviour [Hooks.sleepy_hook; Hooks.failing_hook]
              fake_lease Hooks.BOUND (1 # 10)) as [_ Hall].
  split.
  - destruct (Hall Hooks.sleepy_hook) as (_ & Hslow & _); [left; reflexivity |].
    apply Hslow. cbn. reflexivity.
  - destruct (Hall Hooks.failing_hook) as (Hfail & _); [right; left; reflexivity |].
    apply (Hfail 0%Q "RuntimeError('boom')"); [reflexivity | discriminate].
Defined.

(** The two runs of [test_hooks.py]: a hook that sleeps ten seconds under
    a timeout of a tenth of a second, and a hook that raises at once. *)
Example test_hook_timeout :
  Hooks.errors (Hooks.run_hooks [Hooks.sleepy_hook] fake_lease Hooks.BOUND (1 # 10))
  = ["Hook 'sleepy_hook' timed out"].
Proof. reflexivity. Qed.

Example test_failing_hook :
  Hooks.errors (Hooks.run_hooks [Hooks.failing_hook] fake_lease Hooks.BOUND 2)
  = ["Hook failing_hook failed: RuntimeError('boom')"].
Proof. reflexivity. Qed.

(** * Further properties of the lease code *)

(** ** Timers *)

(** X1.  Where the timer is computed without rounding ([exact_timer]:
    times and results are multiples of 2^-22 below 2^31, as whole seconds
    and present-day clock readings are), an explicit renewal (rebinding)
    time whose timer is not zero is returned as
    [obtained + renewal_time - now]: one clock reading, no draw, and no
    look at the lease time, which may even be missing. *)
Theorem X1_explicit_timers (l : Lease) (o : gmap string pyval) (t : Q) (delta : Z) (w : world) :
  lease_options l o ->
  obtained l = VFloat t ->
  exact_timer t delta (clock w (ticks w)) ->
  ¬ (t + inject_Z delta - clock w (ticks w) == 0)%Q ->
  (o !! "renewal_time" = Some (VInt delta) ->
   renewal_in l w = (Ok (VFloat (t + inject_Z delta - clock w (ticks w))), tick w)) ∧
  (o !! "rebinding_time" = Some (VInt delta) ->
   rebinding_in l w = (Ok (VFloat (t + inject_Z delta - clock w (ticks w))), tick w)).
Proof.
  intros Hopts Hobt _ Hnz. split; intros Hdelta.
  - rewrite renewal_in_shape.
    apply (timer_or_fallback_explicit "renewal" _ _ l o t Hopts Hobt delta w Hdelta Hnz).
  - rewrite rebinding_in_shape.
    apply (timer_or_fallback_explicit "rebinding" _ _ l o t Hopts Hobt delta w Hdelta Hnz).
Qed.

Lemma fake_lease_options : lease_options fake_lease fake_options.
Proof. eexists. split; [reflexivity | vm_compute; reflexivity]. Qed.

Lemma whole_seconds_exact (n : Z) :
  (Z.abs n <= 2147483648)%Z -> exact_float (inject_Z n).
Proof.
  intros Hn. exists (n * 4194304)%Z. split; [| lia].
  unfold Qeq, inject_Z. cbn. lia.
Qed.

Lemma exact_float_eq (p q : Q) : (p == q)%Q -> exact_float p -> exact_float q.
Proof. intros Hpq (m & Hm & Hb). exists m. split; [rewrite <- Hpq; exact Hm | exact Hb]. Qed.

Lemma exact_timer_at_obtained (delta : Z) :
  (0 <= delta <= 1000000)%Z -> exact_timer obtained_at delta obtained_at.
Proof.
  intros Hd. unfold exact_timer.
  assert (Ht : exact_float obtained_at) by (apply (whole_seconds_exact 1738249608); lia).
  split; [exact Ht |]. split; [apply whole_seconds_exact; lia |]. split; [exact Ht |].
  split.
  - apply (exact_float_eq (inject_Z (1738249608 + delta))).
    + rewrite inject_Z_plus. reflexivity.
    + apply whole_seconds_exact. lia.
  - apply (exact_float_eq (inject_Z delta)).
    + unfold obtained_at. lra.
    + apply whole_seconds_exact. lia.
Qed.

Lemma X1_explicit_timers_witness :
  renewal_in fake_lease (frozen_world obtained_at)
    = (Ok (VFloat (obtained_at + inject_Z 60 - obtained_at)), tick (frozen_world obtained_at)).
Proof.
  apply (X1_explicit_timers fake_lease fake_options obtained_at 60 (frozen_world obtained_at)
           fake_lease_options eq_refl).
  - apply (exact_timer_at_obtained 60). lia.
  - vm_compute. discriminate.
  - vm_compute. reflexivity.
Defined.

(** X2.  Without an explicit renewal (rebinding) time and without a lease
    time, [renewal_in] ([rebinding_in]) raises [TypeError]: the fallback
    multiplies [None] by the draw it has just made.  No clock reading is
    spent. *)
Theorem X2_fallback_without_lease_time (l : Lease) (o : gmap string pyval) (w : world) :
  lease_options l o ->
  o !! "lease_time" = None ->
  (o !! "renewal_time" = None -> renewal_in l w = (Raise TypeError, drawn w)) ∧
  (o !! "rebinding_time" = None -> rebinding_in l w = (Raise TypeError, drawn w)).
Proof.
  intros Hopts Hlt. split; intros Habsent.
  - unfold renewal_in, expiration_in, mbind, M_bind.
    rewrite (seconds_til_timer_absent l o "renewal" w Hopts Habsent). cbn.
    rewrite (seconds_til_timer_absent l o "lease" w Hopts Hlt). reflexivity.
  - unfold rebinding_in, expiration_in, mbind, M_bind.
    rewrite (seconds_til_timer_absent l o "rebinding" w Hopts Habsent). cbn.
    rewrite (seconds_til_timer_absent l o "lease" w Hopts Hlt). reflexivity.
Qed.

Lemma timeless_lease_options : lease_options timeless_lease timeless_options.
Proof. eexists. split; [reflexivity | vm_compute; reflexivity]. Qed.

Lemma X2_fallback_without_lease_time_witness :
  renewal_in timeless_lease (frozen_world obtained_at)
    = (Raise TypeError, drawn (frozen_world obtained_at)).
Proof.
  apply (X2_fallback_without_lease_time timeless_lease timeless_options
           (frozen_world obtained_at) timeless_lease_options).
  - vm_compute. reflexivity.
  - vm_compute. reflexivity.
Defined.

(** What [expired] does on a lease, in every world at once: it answers
    false without reading the clock, or it raises [TypeError], or it
    compares a due date that depends on the lease alone with the second
    of two clock readings. *)
Lemma expired_cases (l : Lease) :
  (∀ w : world, expired l w = (Ok false, w)) ∨
  (∀ w : world, result (expired l) w = Raise TypeError) ∨
  (∃ due : Q, ∀ w : world,
      expired l w = (Ok (Qle_bool (due - clock w (S (ticks w))) 0), tick (tick w))).
Proof.
  unfold result, expired, expiration_in, mbind, M_bind.
  destruct (seconds_til_timer_cases l "lease") as [Hnone | [Hraise | [due Hdue]]].
  - left. intros w. rewrite (Hnone w). reflexivity.
  - right. left. intros w. pose proof (Hraise w) as Hw. unfold result in Hw.
    destruct (_seconds_til_timer l "lease" w) as [r w1]. cbn in Hw. subst r. reflexivity.
  - right. right. exists due. intros w.
    rewrite (Hdue w). cbn. rewrite (Hdue (tick w)). reflexivity.
Qed.

(** X3.  As long as the clock never runs backwards, a lease that
    [expired] reports as expired is reported as expired on every later
    read. *)
Theorem X3_expired_stays_expired (l : Lease) (w w' : world) :
  monotone_clock w ->
  later w w' ->
  result (expired l) w = Ok true ->
  result (expired l) w' = Ok true.
Proof.
  intros Hmono [Hclock Hticks] Hexp.
  destruct (expired_cases l) as [Hfalse | [Hraise | [due Hdue]]].
  - unfold result in Hexp. rewrite (Hfalse w) in Hexp. discriminate.
  - rewrite (Hraise w) in Hexp. discriminate.
  - unfold result in *. rewrite (Hdue w) in Hexp. rewrite (Hdue w'). cbn in *.
    injection Hexp as Hle. f_equal.
    apply Qle_bool_iff in Hle. apply Qle_bool_iff.
    assert (Hlater : (clock w (S (ticks w)) <= clock w' (S (ticks w')))%Q).
    { rewrite Hclock. apply Hmono. lia. }
    lra.
Qed.

Lemma X3_expired_stays_expired_witness :
  result (expired fake_lease) (tick (tick (frozen_world (obtained_at + 121)))) = Ok true.
Proof.
  apply (X3_expired_stays_expired fake_lease (frozen_world (obtained_at + 121))).
  - intros n m _. cbn. apply Qle_refl.
  - split; [reflexivity | cbn; lia].
  - vm_compute. reflexivity.
Defined.

(** X4.  A lease that carries a lease time but neither renewal nor
    rebinding time, read before it expires, its expiration computed
    without rounding ([exact_timer]): on one and the same clock reading,
    whatever the draws, the renewal falls strictly before the rebinding,
    and the rebinding strictly before the expiration. *)
Theorem X4_fallback_timers_are_ordered (l : Lease) (o : gmap string pyval) (t : Q)
        (lease_time : Z) (w1 w2 : world) :
  lease_options l o ->
  obtained l = VFloat t ->
  o !! "lease_time" = Some (VInt lease_time) ->
  o !! "renewal_time" = None ->
  o !! "rebinding_time" = None ->
  rng_in_range w1 ->
  rng_in_range w2 ->
  (clock w1 (ticks w1) == clock w2 (ticks w2))%Q ->
  exact_timer t lease_time (clock w1 (ticks w1)) ->
  (clock w1 (ticks w1) < t + inject_Z lease_time)%Q ->
  ∃ renewal rebinding : Q,
    result (renewal_in l) w1 = Ok (VFloat renewal) ∧
    result (rebinding_in l) w2 = Ok (VFloat rebinding) ∧
    (0 < renewal)%Q ∧
    (renewal < rebinding)%Q ∧
    (rebinding < t + inject_Z lease_time - clock w1 (ticks w1))%Q.
Proof.
  intros Hopts Hobt Hlt Hrenew Hrebind Hr1 Hr2 Hclock _ Hbefore.
  destruct (fallback_sample "renewal" (4 # 10) (6 # 10) eq_refl l o t lease_time
              Hopts Hobt Hrenew Hlt w1 Hr1)
    as (e1 & u1 & _ & He1 & _ & Hrun1 & Hlo1 & Hhi1 & _).
  destruct (fallback_sample "rebinding" (75 # 100) (90 # 100) eq_refl l o t lease_time
              Hopts Hobt Hrebind Hlt w2 Hr2)
    as (e2 & u2 & _ & He2 & _ & Hrun2 & Hlo2 & Hhi2 & _).
  exists (e1 * u1)%Q, (e2 * u2)%Q.
  unfold result. rewrite renewal_in_shape, rebinding_in_shape, Hrun1, Hrun2.
  split; [reflexivity |]. split; [reflexivity |].
  assert (Hpos : (0 < e1)%Q) by (rewrite He1; lra).
  assert (Hsame : (e2 == e1)%Q) by (rewrite He1, He2; lra).
  rewrite <- He1.
  assert (H1 : (e2 * u2 == e1 * u2)%Q) by (rewrite Hsame; reflexivity).
  repeat split; nra.
Qed.

Lemma X4_fallback_timers_are_ordered_witness :
  ∃ renewal rebinding : Q,
    result (renewal_in bare_lease) (frozen_world obtained_at) = Ok (VFloat renewal) ∧
    result (rebinding_in bare_lease) (frozen_world obtained_at) = Ok (VFloat rebinding) ∧
    (0 < renewal)%Q ∧
    (renewal < rebinding)%Q ∧
    (rebinding < obtained_at + inject_Z 120 - obtained_at)%Q.
Proof.
  apply (X4_fallback_timers_are_ordered bare_lease bare_options obtained_at 120
           (frozen_world obtained_at) (frozen_world obtained_at) bare_lease_options eq_refl).
  - vm_compute. reflexivity.
  - vm_compute. reflexivity.
  - vm_compute. reflexivity.
  - apply frozen_world_rng_in_range.
  - apply frozen_world_rng_in_range.
  - reflexivity.
  - apply (exact_timer_at_obtained 120). lia.
  - vm_compute. reflexivity.
Defined.

(** ** Option access on unusual acknowledgements *)

Lemma LeaseOption_get_no_options (p : LeaseOption) (l : Lease) (d : gmap string pyval) :
  ack l = VDict d ->
  d !! "options" = None ->
  LeaseOption_get p l = Raise (KeyError (VStr "options")).
Proof.
  intros Hack Hopts. unfold LeaseOption_get. rewrite Hack. cbn. rewrite Hopts. reflexivity.
Qed.

(** X5.  When the acknowledgement is a mapping without an ["options"]
    entry, each of the eight option properties, and [default_gateway],
    raises the [KeyError] of the failed lookup of ["options"], not
    [MissingOptionError]; the timers of the same lease answer [None] and
    [expired] answers false. *)
Theorem X5_no_options_entry (l : Lease) (d : gmap string pyval) (w : world) :
  ack l = VDict d ->
  d !! "options" = None ->
  Forall (fun '(_, _, property) => property l = Raise (KeyError (VStr "options")))
         option_properties ∧
  default_gateway l = Raise (KeyError (VStr "options")) ∧
  expiration_in l w = (Ok VNone, w) ∧
  expired l w = (Ok false, w).
Proof.
  intros Hack Hopts.
  split; [| split; [| split]].
  - unfold option_properties.
    repeat apply Forall_cons_2; try apply Forall_nil_2;
      apply (LeaseOption_get_no_options (mkLeaseOption _) l d Hack Hopts).
  - unfold default_gateway, routers.
    rewrite (LeaseOption_get_no_options (mkLeaseOption ROUTER) l d Hack Hopts). reflexivity.
  - apply (seconds_til_timer_no_options l d "lease" w Hack Hopts).
  - unfold expired, expiration_in, mbind, M_bind.
    rewrite (seconds_til_timer_no_options l d "lease" w Hack Hopts). reflexivity.
Qed.

Lemma X5_no_options_entry_witness :
  default_gateway hollow_lease = Raise (KeyError (VStr "options")) ∧
  expired hollow_lease (frozen_world obtained_at) = (Ok false, frozen_world obtained_at).
Proof.
  destruct (X5_no_options_entry hollow_lease ∅ (frozen_world obtained_at) eq_refl)
    as (_ & Hgw & _ & Hexp).
  - reflexivity.
  - split; assumption.
Defined.

(** X6.  [default_gateway] subscripts whatever the router option holds.
    When that is a string that begins with an ASCII character rather than
    a list, the result is that first character; when it is a number, a
    boolean or [None], the subscript raises [TypeError]. *)
Theorem X6_default_gateway_of_non_list (l : Lease) (o : gmap string pyval) :
  lease_options l o ->
  (∀ (c : ascii) (s : string),
      (nat_of_ascii c < 128)%nat ->
      o !! "router" = Some (VStr (String c s)) ->
      default_gateway l = Ok (VStr (String c ""))) ∧
  (∀ v : pyval,
      o !! "router" = Some v ->
      (∃ n : num, as_num v = Some n) ∨ v = VNone ->
      default_gateway l = Raise TypeError).
Proof.
  intros Hl. unfold default_gateway, routers. split.
  - intros c s _ Hr.
    rewrite (LeaseOption_get_present (mkLeaseOption ROUTER) l o _ Hl Hr). reflexivity.
  - intros v Hr Hv.
    rewrite (LeaseOption_get_present (mkLeaseOption ROUTER) l o _ Hl Hr).
    destruct Hv as [[n Hn] | ->]; [| reflexivity].
    destruct v; try discriminate; reflexivity.
Qed.

Lemma X6_default_gateway_of_non_list_witness :
  default_gateway text_router_lease = Ok (VStr "1").
Proof.
  assert (Hl : lease_options text_router_lease {[ "router" := VStr "192.168.112.1" ]}).
  { eexists. split; [reflexivity | vm_compute; reflexivity]. }
  destruct (X6_default_gateway_of_non_list _ _ Hl) as [Hstr _].
  apply (Hstr "1"%char "92.168.112.1"); [vm_compute; lia | vm_compute; reflexivity].
Defined.

(** ** Loading, case by case *)



Lemma Lease_init_accepts (v : pyval) (w : world) :
  lease_record v -> ∃ (l : Lease) (w' : world), Lease_init v w = (Ok l, w').
Proof.
  intros (d & -> & Hdom & [a Ha] & [n Hn] & [m Hm]).
  unfold Lease_init. rewrite bool_decide_eq_true_2 by exact Hdom.
  rewrite Ha, Hn, Hm. destruct (d !! "obtained"); cbn; eauto.
Qed.

Lemma Lease_init_rejects (v : pyval) (w : world) :
  ¬ lease_record v -> Lease_init v w = (Raise TypeError, w).
Proof.
  intros Hnot. unfold Lease_init.
  destruct v as [| | | | | |d]; try reflexivity.
  case_bool_decide as Hdom; [| reflexivity].
  destruct (d !! "ack") as [a|] eqn:Ha; [| reflexivity].
  destruct (d !! "interface") as [n|] eqn:Hn; [| reflexivity].
  destruct (d !! "server_mac") as [m|] eqn:Hm; [| reflexivity].
  exfalso. apply Hnot. exists d. rewrite Ha, Hn, Hm. eauto 10.
Qed.

(** X8.  When [json.load] decodes the lease file to a value, [load]
    returns a lease exactly when that value is a mapping whose keys are
    all fields of [Lease] and include ack, interface and server_mac.  For
    every other decoded value (a list, a number, a mapping with a missing
    or an unknown key) it returns [None], having logged the loading record
    and then one warning that carries the [TypeError].  Nothing is said of
    text that [json.load] does not decode. *)
Theorem X8_load_json_document (i : string) (p : Path) (w : world) (v : pyval) :
  result (JSONFileLease._get_path i) w = Ok p ->
  files w !! path_str p = Some (JsonText v) ->
  (lease_record v -> ∃ l : Lease, result (JSONFileLease.load i) w = Ok (Some l)) ∧
  (¬ lease_record v ->
   JSONFileLease.load i w =
     (Ok None, logged (load_error_record TypeError) (logged (loading_record i p) w))).
Proof.
  intros Hpath Hfile. split; intros Hrec.
  - destruct (Lease_init_accepts v (logged (loading_record i p) w) Hrec) as (l & w' & Hinit).
    exists l. unfold result. rewrite (load_document i p w Hpath v Hfile), Hinit. reflexivity.
  - rewrite (load_document i p w Hpath v Hfile), (Lease_init_rejects v _ Hrec). reflexivity.
Qed.

Lemma X8_load_json_document_witness :
  JSONFileLease.load "eth0" (world_with_file "eth0.lease.json" (JsonText (VList [])))
  = (Ok None,
     logged (load_error_record TypeError)
       (logged (loading_record "eth0" (mkPath true ["var"; "lib"; "dhcp"; "eth0.lease.json"]))
          (world_with_file "eth0.lease.json" (JsonText (VList []))))).
Proof.
  apply (X8_load_json_document "eth0" (mkPath true ["var"; "lib"; "dhcp"; "eth0.lease.json"])
           (world_with_file "eth0.lease.json" (JsonText (VList []))) (VList [])).
  - vm_compute. reflexivity.
  - vm_compute. reflexivity.
  - intros (d & Hd & _). discriminate Hd.
Defined.

(** X9.  A stored record that has ack, interface and server_mac but no
    obtained is loaded as a lease obtained at the moment of loading:
    [load] reads the clock once and puts that reading in the lease. *)
Theorem X9_load_undated_record (i : string) (p : Path) (w : world)
        (d : gmap string pyval) (a n m : pyval) :
  result (JSONFileLease._get_path i) w = Ok p ->
  files w !! path_str p = Some (JsonText (VDict d)) ->
  dom d ⊆ Lease_fields ->
  d !! "ack" = Some a ->
  d !! "interface" = Some n ->
  d !! "server_mac" = Some m ->
  d !! "obtained" = None ->
  JSONFileLease.load i w =
    (Ok (Some (mkLease a n m (VFloat (clock w (ticks w))))),
     tick (logged (loading_record i p) w)).
Proof.
  intros Hpath Hfile Hdom Ha Hn Hm Ho.
  rewrite (load_document i p w Hpath _ Hfile).
  unfold Lease_init. rewrite bool_decide_eq_true_2 by exact Hdom.
  rewrite Ha, Hn, Hm, Ho. reflexivity.
Qed.

Lemma X9_load_undated_record_witness :
  result (JSONFileLease.load "eth0")
         (world_with_file "eth0.lease.json" (JsonText (VDict undated_record)))
  = Ok (Some fake_lease).
Proof.
  unfold result.
  rewrite (X9_load_undated_record "eth0" (mkPath true ["var"; "lib"; "dhcp"; "eth0.lease.json"])
             (world_with_file "eth0.lease.json" (JsonText (VDict undated_record)))
             undated_record (fake_ack fake_options) (VStr "eth0") (VStr "2e:7e:7d:8e:5f:5f")).
  - reflexivity.
  - vm_compute. reflexivity.
  - vm_compute. reflexivity.
  - apply (bool_decide_unpack _). vm_compute. exact I.
  - vm_compute. reflexivity.
  - vm_compute. reflexivity.
  - vm_compute. reflexivity.
  - vm_compute. reflexivity.
Defined.

Ltac frame := repeat split; first [reflexivity | cbn; lia].

Lemma load_bad_path (i : string) (w : world) (e : exn) :
  result (JSONFileLease._get_path i) w = Raise e ->
  JSONFileLease.load i w = (Raise e, w).
Proof.
  unfold result. rewrite get_path_run. intros Hpath.
  change (with_suffix (joinpath (cwd w) i) ".lease.json" = Raise e) in Hpath.
  unfold JSONFileLease.load, mbind, M_bind. rewrite get_path_run, Hpath. reflexivity.
Qed.

Lemma load_directory (i : string) (p : Path) (w : world) :
  result (JSONFileLease._get_path i) w = Ok p ->
  files w !! path_str p = None ->
  path_str p ∈ dirs w ->
  JSONFileLease.load i w = (Raise (IsADirectoryError (path_str p)), w).
Proof.
  intros Hpath Hfile Hdir.
  unfold JSONFileLease.load, mbind, M_bind. rewrite (get_path_eq i p w Hpath).
  unfold try_except, open_rt. rewrite Hfile.
  rewrite bool_decide_eq_true_2 by exact Hdir. reflexivity.
Qed.

Lemma Lease_init_world (v : pyval) (w : world) :
  after (Lease_init v) w = w ∨ after (Lease_init v) w = tick w.
Proof.
  unfold after, Lease_init.
  destruct v as [| | | | | |d]; auto.
  case_bool_decide; auto.
  destruct (d !! "ack"), (d !! "interface"), (d !! "server_mac"); auto.
  destruct (d !! "obtained"); auto.
Qed.

(** X10.  [load] only reads: whatever it returns or raises, the files,
    the directories and the working directory are the ones it found, and
    at most one clock reading and no draw was spent. *)
Theorem X10_load_is_read_only (i : string) (w : world) :
  same_store w (after (JSONFileLease.load i) w) ∧
  draws (after (JSONFileLease.load i) w) = draws w ∧
  (ticks w <= ticks (after (JSONFileLease.load i) w) <= S (ticks w))%nat.
Proof.
  unfold after, same_store.
  destruct (result (JSONFileLease._get_path i) w) as [p | e] eqn:Hpath.
  - destruct (files w !! path_str p) as [[v |] |] eqn:Hfile.
    + rewrite (load_document i p w Hpath v Hfile).
      pose proof (Lease_init_world v (logged (loading_record i p) w)) as Hw.
      unfold after in Hw.
      destruct (Lease_init v _) as [[l | e] w'] eqn:Hinit; cbn in Hw.
      * destruct Hw as [-> | ->]; frame.
      * destruct e; destruct Hw as [-> | ->]; frame.
    + rewrite (load_corrupt_file i p w Hpath Hfile). frame.
    + destruct (decide (path_str p ∈ dirs w)) as [Hdir | Hdir].
      * rewrite (load_directory i p w Hpath Hfile Hdir). frame.
      * rewrite (load_missing_file i p w Hpath Hfile Hdir). frame.
  - rewrite (load_bad_path i w e Hpath). frame.
Qed.

(** ** Lease paths *)

Lemma str_length_app (a b : string) :
  String.length (a +:+ b) = (String.length a + String.length b)%nat.
Proof.
  induction a as [| c a IH]; [reflexivity |].
  change (String c a +:+ b) with (String c (a +:+ b)). cbn. rewrite IH. reflexivity.
Qed.

Lemma str_app_inv_tail (a b t : string) : a +:+ t = b +:+ t -> a = b.
Proof.
  revert b. induction a as [| c a IH]; intros [| c' b] H.
  - reflexivity.
  - apply (f_equal String.length) in H. rewrite !str_length_app in H. cbn in H. lia.
  - apply (f_equal String.length) in H. rewrite !str_length_app in H. cbn in H. lia.
  - change (String c (a +:+ t) = String c' (b +:+ t)) in H.
    injection H as -> H. f_equal. apply IH. exact H.
Qed.

Lemma str_app_assoc (a b c : string) : (a +:+ b) +:+ c = a +:+ (b +:+ c).
Proof.
  induction a as [| x a IH]; [reflexivity |].
  change ((String x a +:+ b) +:+ c) with (String x ((a +:+ b) +:+ c)).
  rewrite IH. reflexivity.
Qed.

Lemma str_join_snoc (sep : string) (ps : list string) (n : string) :
  str_join sep (ps ++ [n]) =
    match ps with
    | [] => n
    | _ => str_join sep ps +:+ sep +:+ n
    end.
Proof.
  induction ps as [| x xs IH]; [reflexivity |].
  destruct xs as [| y ys]; [reflexivity |].
  change (str_join sep ((x :: y :: ys) ++ [n]))
    with (x +:+ sep +:+ str_join sep ((y :: ys) ++ [n])).
  rewrite IH.
  change (str_join sep (x :: y :: ys)) with (x +:+ sep +:+ str_join sep (y :: ys)).
  rewrite !str_app_assoc. reflexivity.
Qed.

(** In one directory, the path string tells the file name. *)
Lemma path_str_snoc_inj (a : bool) (ps : list string) (n m : string) :
  path_str (mkPath a (ps ++ [n])) = path_str (mkPath a (ps ++ [m])) -> n = m.
Proof.
  unfold path_str. cbn [absolute parts].
  assert (Hjoin : str_join "/" (ps ++ [n]) = str_join "/" (ps ++ [m]) -> n = m).
  { rewrite !str_join_snoc. destruct ps as [| x xs]; [auto |].
    intros H. apply (inj (String.app _)) in H. apply (inj (String.app _)) in H. exact H. }
  destruct a.
  - intros H. apply (inj (String.app _)) in H. auto.
  - destruct (ps ++ [n])%list eqn:En; [destruct ps; discriminate En |].
    destruct (ps ++ [m])%list eqn:Em; [destruct ps; discriminate Em |].
    exact Hjoin.
Qed.

Lemma lease_file_name_stem (i : string) : lease_file_name i = stem i +:+ ".lease.json".
Proof. reflexivity. Qed.

Lemma lease_file_name_nonempty (i : string) : lease_file_name i ≠ "".
Proof.
  rewrite lease_file_name_stem. intros H.
  apply (f_equal String.length) in H. rewrite str_length_app in H. cbn in H. lia.
Qed.

(** X11.  For plain interface names, the lease file lies directly in the
    working directory and is named after the stem of the interface name
    (the name without what follows its last inner dot); two names have the
    same lease path exactly when they have the same stem. *)
Theorem X11_lease_path_by_stem (i j : string) (w : world) :
  plain_name i ->
  plain_name j ->
  JSONFileLease._get_path i w
    = (Ok (mkPath (absolute (cwd w)) (parts (cwd w) ++ [stem i +:+ ".lease.json"])), w) ∧
  (∀ p : Path, result (JSONFileLease._get_path i) w = Ok p -> parent p = cwd w) ∧
  (result (JSONFileLease._get_path i) w = result (JSONFileLease._get_path j) w
     ↔ stem i = stem j).
Proof.
  intros Hi Hj.
  split; [apply (get_path_plain i w Hi) | split].
  - intros p. unfold result. rewrite (get_path_plain i w Hi). cbn.
    intros [= <-]. apply parent_lease_file.
  - unfold result. rewrite (get_path_plain i w Hi), (get_path_plain j w Hj). cbn.
    unfold lease_file. rewrite !lease_file_name_stem. split.
    + intros [= H]. apply app_inv_head in H. injection H as H.
      apply str_app_inv_tail in H. exact H.
    + intros ->. reflexivity.
Qed.

Lemma X11_lease_path_by_stem_witness :
  result (JSONFileLease._get_path "eth0.100") (frozen_world obtained_at)
  = result (JSONFileLease._get_path "eth0") (frozen_world obtained_at).
Proof.
  assert (H100 : plain_name "eth0.100") by (repeat split; discriminate).
  destruct (X11_lease_path_by_stem "eth0.100" "eth0" (frozen_world obtained_at)
              H100 plain_name_eth0) as (_ & _ & Hiff).
  apply Hiff. reflexivity.
Defined.

(** ** Dumping and other leases *)

Lemma get_path_same_cwd (j : string) (w1 w2 : world) :
  cwd w1 = cwd w2 ->
  result (JSONFileLease._get_path j) w1 = result (JSONFileLease._get_path j) w2.
Proof.
  intros Hcwd. unfold result. rewrite !get_path_run. cbn [fst]. rewrite Hcwd. reflexivity.
Qed.

Lemma Lease_init_result_ext (v : pyval) (w1 w2 : world) :
  clock w1 = clock w2 -> ticks w1 = ticks w2 ->
  result (Lease_init v) w1 = result (Lease_init v) w2.
Proof.
  intros Hclock Hticks. unfold result, Lease_init.
  destruct v as [| | | | | |d]; try reflexivity.
  case_bool_decide; [| reflexivity].
  destruct (d !! "ack"), (d !! "interface"), (d !! "server_mac"); try reflexivity.
  destruct (d !! "obtained"); [reflexivity |].
  unfold mbind, M_bind, _now. cbn. rewrite Hclock, Hticks. reflexivity.
Qed.

(** What [load] returns or raises hinges on the working directory, the
    directories, the clock and the content of the one lease file. *)
Lemma load_result_ext (j : string) (w1 w2 : world) :
  cwd w1 = cwd w2 ->
  dirs w1 = dirs w2 ->
  clock w1 = clock w2 ->
  ticks w1 = ticks w2 ->
  (∀ p : Path, result (JSONFileLease._get_path j) w1 = Ok p ->
               files w1 !! path_str p = files w2 !! path_str p) ->
  result (JSONFileLease.load j) w1 = result (JSONFileLease.load j) w2.
Proof.
  intros Hcwd Hdirs Hclock Hticks Hfiles.
  pose proof (get_path_same_cwd j w1 w2 Hcwd) as Hsame.
  destruct (result (JSONFileLease._get_path j) w1) as [p | e] eqn:Hp1; symmetry in Hsame.
  - specialize (Hfiles p eq_refl).
    destruct (files w1 !! path_str p) as [[v |] |] eqn:Hf1; symmetry in Hfiles.
    + unfold result at 1 2.
      rewrite (load_document j p w1 Hp1 v Hf1), (load_document j p w2 Hsame v Hfiles).
      pose proof (Lease_init_result_ext v (logged (loading_record j p) w1)
                    (logged (loading_record j p) w2) Hclock Hticks) as Hinit.
      unfold result in Hinit.
      destruct (Lease_init v (logged (loading_record j p) w1)) as [r1 u1].
      destruct (Lease_init v (logged (loading_record j p) w2)) as [r2 u2].
      cbn in Hinit. subst r2. destruct r1 as [l | e]; [reflexivity |]. destruct e; reflexivity.
    + unfold result at 1 2.
      rewrite (load_corrupt_file j p w1 Hp1 Hf1), (load_corrupt_file j p w2 Hsame Hfiles).
      reflexivity.
    + unfold result at 1 2.
      destruct (decide (path_str p ∈ dirs w1)) as [Hdir | Hdir].
      * rewrite (load_directory j p w1 Hp1 Hf1 Hdir).
        rewrite Hdirs in Hdir. rewrite (load_directory j p w2 Hsame Hfiles Hdir). reflexivity.
      * rewrite (load_missing_file j p w1 Hp1 Hf1 Hdir).
        rewrite Hdirs in Hdir. rewrite (load_missing_file j p w2 Hsame Hfiles Hdir). reflexivity.
  - unfold result at 1 2.
    rewrite (load_bad_path j w1 e Hp1), (load_bad_path j w2 e Hsame). reflexivity.
Qed.

(** X12.  Dumping the lease of one interface leaves the leases of the
    others alone: for plain names with different stems, [load] for the
    second interface returns or raises after the dump what it did
    before. *)
Theorem X12_dump_leaves_other_leases (l : Lease) (i j : string) (w w' : world) :
  interface l = VStr i ->
  plain_name i ->
  plain_name j ->
  stem i ≠ stem j ->
  JSONFileLease.dump l w = (Ok tt, w') ->
  result (JSONFileLease.load j) w' = result (JSONFileLease.load j) w.
Proof.
  intros Hi Hpi Hpj Hstem Hdump.
  destruct (dump_success l i w w' Hi Hdump) as (p & Hp & ->).
  pose proof (get_path_plain i w Hpi) as Ei. rewrite get_path_run in Ei.
  injection Ei as Ei. rewrite Ei in Hp. injection Hp as <-.
  apply load_result_ext; try reflexivity.
  intros q Hq.
  rewrite (get_path_same_cwd j (written _ _ (logged _ w)) w eq_refl) in Hq.
  unfold result in Hq. rewrite (get_path_plain j w Hpj) in Hq. injection Hq as <-.
  cbn [files written logged].
  apply lookup_insert_ne.
  intros Heq. apply Hstem.
  unfold lease_file in Heq. apply path_str_snoc_inj in Heq.
  rewrite !lease_file_name_stem in Heq. apply str_app_inv_tail in Heq. exact Heq.
Qed.

Lemma X12_dump_leaves_other_leases_witness :
  ∃ w' : world,
    JSONFileLease.dump wlan0_lease (frozen_world obtained_at) = (Ok tt, w') ∧
    result (JSONFileLease.load "eth0") w'
    = result (JSONFileLease.load "eth0") (frozen_world obtained_at).
Proof.
  assert (Hw : plain_name "wlan0") by (repeat split; discriminate).
  assert (Hdump : JSONFileLease.dump wlan0_lease (frozen_world obtained_at)
                  = (Ok tt, written (path_str (lease_file (frozen_world obtained_at) "wlan0"))
                              (JsonText (asdict wlan0_lease))
                              (logged (writing_record "wlan0"
                                         (lease_file (frozen_world obtained_at) "wlan0"))
                                      (frozen_world obtained_at)))).
  { apply (dump_plain_name wlan0_lease "wlan0" (frozen_world obtained_at) eq_refl Hw).
    - apply frozen_world_cwd_exists.
    - vm_compute. discriminate. }
  eexists. split; [exact Hdump |].
  apply (X12_dump_leaves_other_leases wlan0_lease "wlan0" "eth0" (frozen_world obtained_at)
           _ eq_refl Hw plain_name_eth0); [| exact Hdump].
  vm_compute. discriminate.
Defined.



(** ** More on options *)

(** X14.  A lease time that is there but is not a number ([null], text, a
    list) is not treated like a missing one: adding it to a float
    [obtained] raises [TypeError], which [_seconds_til_timer] does not
    catch, so [expiration_in] and [expired] raise instead of answering
    [None] and false.  The clock is not read. *)
Theorem X14_non_numeric_lease_time (l : Lease) (o : gmap string pyval) (t : Q)
        (v : pyval) (w : world) :
  lease_options l o ->
  obtained l = VFloat t ->
  o !! "lease_time" = Some v ->
  as_num v = None ->
  expiration_in l w = (Raise TypeError, w) ∧ expired l w = (Raise TypeError, w).
Proof.
  intros (d & Hack & Hopts) Hobt Hlt Hv.
  assert (He : expiration_in l w = (Raise TypeError, w)).
  { change (o !! ("lease" +:+ "_time") = Some v) in Hlt.
    unfold expiration_in, _seconds_til_timer, try_except, mbind, M_bind, lift.
    rewrite Hack. cbn. rewrite Hopts. cbn. rewrite Hlt, Hobt.
    unfold py_add. rewrite Hv. cbn. destruct v; try discriminate; reflexivity. }
  split; [exact He |].
  unfold expired, mbind, M_bind. rewrite He. reflexivity.
Qed.

Lemma X14_non_numeric_lease_time_witness :
  expired soon_lease (frozen_world obtained_at) = (Raise TypeError, frozen_world obtained_at).
Proof.
  assert (Hl : lease_options soon_lease {[ "lease_time" := VStr "soon" ]}).
  { eexists. split; [reflexivity | vm_compute; reflexivity]. }
  destruct (X14_non_numeric_lease_time soon_lease _ obtained_at (VStr "soon")
              (frozen_world obtained_at) Hl eq_refl) as [_ H].
  - vm_compute. reflexivity.
  - reflexivity.
  - exact H.
Defined.

(** X15.  Deleting one option from the acknowledgement, as the tests do
    with the broadcast address, makes the property of that option raise
    [MissingOptionError] for it and changes nothing else: the other seven
    option properties, [ip] and the three other fields read as before.
    Deleting an option that is not there is a [KeyError]. *)
Theorem X15_delete_one_option (l : Lease) (o : gmap string pyval) :
  lease_options l o ->
  Forall (fun '(key, option, property) =>
            (o !! key = None -> del_option l key = Raise (KeyError (VStr key))) ∧
            (is_Some (o !! key) ->
             ∃ l' : Lease,
               del_option l key = Ok l' ∧
               property l' = Raise (MissingOptionError option) ∧
               Forall (fun '(key', _, property') =>
                         key' ≠ key -> property' l' = property' l)
                      option_properties ∧
               ip l' = ip l ∧
               interface l' = interface l ∧ server_mac l' = server_mac l ∧
               obtained l' = obtained l))
         option_properties.
Proof.
  intros (d & Hack & Hopts).
  assert (Hdel : ∀ key : string,
             (o !! key = None -> del_option l key = Raise (KeyError (VStr key))) ∧
             (is_Some (o !! key) ->
              del_option l key
              = Ok (mkLease (VDict (<["options" := VDict (delete key o)]> d))
                            (interface l) (server_mac l) (obtained l)))).
  { intros key. unfold del_option. rewrite Hack. cbn. rewrite Hopts. cbn.
    split; [intros -> | intros [x ->]]; reflexivity. }
  assert (Hl' : ∀ key : string,
             lease_options (mkLease (VDict (<["options" := VDict (delete key o)]> d))
                                    (interface l) (server_mac l) (obtained l))
                           (delete key o)).
  { intros key. eexists. split; [reflexivity | apply lookup_insert_eq]. }
  assert (Hl : lease_options l o) by (exists d; auto).
  assert (Hget : ∀ (key : string) (p : LeaseOption),
             lower (Option_name (opt p)) ≠ key ->
             LeaseOption_get p (mkLease (VDict (<["options" := VDict (delete key o)]> d))
                                        (interface l) (server_mac l) (obtained l))
             = LeaseOption_get p l).
  { intros key p Hne.
    destruct (o !! lower (Option_name (opt p))) as [x |] eqn:Hx.
    - rewrite (LeaseOption_get_present p l o x Hl Hx).
      apply (LeaseOption_get_present p _ _ x (Hl' key)).
      rewrite lookup_delete_ne by congruence. exact Hx.
    - rewrite (LeaseOption_get_missing p l o Hl Hx).
      apply (LeaseOption_get_missing p _ _ (Hl' key)).
      rewrite lookup_delete_ne by congruence. exact Hx. }
  unfold option_properties at 1.
  repeat apply Forall_cons_2; try apply Forall_nil_2;
    (split; [apply Hdel |]);
    (intros Hsome; eexists; split; [apply Hdel; exact Hsome |]);
    (split; [apply (LeaseOption_get_missing (mkLeaseOption _) _ _ (Hl' _)), lookup_delete_eq |]);
    (split; [| cbn; unfold ip; cbn; rewrite Hack; cbn;
               rewrite lookup_insert_ne by discriminate; auto]);
    unfold option_properties;
    repeat apply Forall_cons_2; try apply Forall_nil_2;
    intros Hne; try (apply (Hget _ (mkLeaseOption _)); cbn; congruence);
    exfalso; apply Hne; reflexivity.
Qed.

Lemma X15_delete_one_option_witness :
  ∃ l' : Lease,
    del_option fake_lease "broadcast_address" = Ok l' ∧
    broadcast_address l' = Raise (MissingOptionError BROADCAST_ADDRESS) ∧
    ip l' = ip fake_lease.
Proof.
  pose proof (X15_delete_one_option fake_lease fake_options fake_lease_options) as H.
  unfold option_properties in H.
  repeat (apply Forall_cons_1 in H as [?P H]).
  destruct P1 as [_ Hsome].
  destruct Hsome as (l' & Hdel & Hmissing & _ & Hip & _).
  - eexists. vm_compute. reflexivity.
  - exists l'. auto.
Defined.

(** * Properties of the console *)

(** ** Converting arguments *)

Lemma chomp_digits (s : string) : Console.all_digits s = true -> Console.chomp s = s.
Proof.
  induction s as [| c s IH]; [reflexivity |].
  cbn [Console.all_digits]. intros H. apply andb_true_iff in H as [Hc Hs].
  destruct s as [| c' s'].
  - cbn. destruct (Ascii.eqb c Console.newline) eqn:E; [| reflexivity].
    apply Ascii.eqb_eq in E. subst c. discriminate Hc.
  - change (Console.chomp (String c (String c' s')))
      with (String c (Console.chomp (String c' s'))).
    rewrite (IH Hs). reflexivity.
Qed.

Lemma convert_digits (s : string) :
  Console.all_digits s = true -> s ≠ "" ->
  Console.convert s = VInt (Console.int_acc 0 s).
Proof.
  intros Hd Hne. unfold Console.convert, Console.re_match_digits.
  rewrite (chomp_digits s Hd), Hd.
  apply String.eqb_neq in Hne. rewrite Hne. reflexivity.
Qed.

Lemma int_acc_of_uint (d : Decimal.uint) (acc : nat) :
  Console.int_acc (Z.of_nat acc) (NilEmpty.string_of_uint d)
  = Z.of_nat (Nat.of_uint_acc d acc).
Proof.
  revert acc. induction d; intros acc; cbn [NilEmpty.string_of_uint Console.int_acc Nat.of_uint_acc];
    [reflexivity | ..];
    rewrite Nat.tail_mul_spec, <- IHd; f_equal; unfold Console.digit_value;
    match goal with
    | |- context [Z.of_nat (nat_of_ascii ?c - 48)] =>
        let v := eval vm_compute in (Z.of_nat (nat_of_ascii c - 48)) in
        change (Z.of_nat (nat_of_ascii c - 48)) with v
    end; lia.
Qed.

Lemma all_digits_of_uint (d : Decimal.uint) :
  Console.all_digits (NilEmpty.string_of_uint d) = true.
Proof. induction d; cbn; auto. Qed.

Lemma py_str_nonempty (n : nat) : Console.py_str n ≠ "".
Proof.
  unfold Console.py_str.
  assert (Hnorm : Nat.to_uint n = unorm (Nat.to_uint n)).
  { rewrite <- (DecimalNat.Unsigned.to_of (Nat.to_uint n)), DecimalNat.Unsigned.of_to.
    reflexivity. }
  destruct (Nat.to_uint n) as [| d | d | d | d | d | d | d | d | d | d] eqn:E;
    discriminate.
Qed.

Lemma int_acc_nonneg (s : string) (acc : Z) : (0 <= acc)%Z -> (0 <= Console.int_acc acc s)%Z.
Proof.
  revert acc. induction s as [| c s IH]; intros acc Hacc; cbn; [exact Hacc |].
  apply IH. unfold Console.digit_value. lia.
Qed.

(** X16.  [convert] reads back what [str] writes: for every natural number
    [n] (short enough for [int]), [convert(str(n))] is the integer [n].
    It never produces a negative integer, and text in which anything but
    decimal digits occurs before an optional final newline, the empty
    text included, is returned unchanged, as text. *)
Theorem X16_convert_reads_decimal :
  (∀ n : nat,
      (String.length (Console.py_str n) <= 4300)%nat ->
      Console.convert (Console.py_str n) = VInt (Z.of_nat n)) ∧
  (∀ (arg : string) (z : Z), Console.convert arg = VInt z -> (0 <= z)%Z) ∧
  (∀ arg : string,
      Console.all_digits (Console.chomp arg) = false -> Console.convert arg = VStr arg) ∧
  Console.convert "" = VStr "".
Proof.
  split; [| split; [| split]].
  - intros n _.
    rewrite convert_digits.
    + unfold Console.py_str.
      change 0%Z with (Z.of_nat 0).
      rewrite (int_acc_of_uint (Nat.to_uint n) 0).
      change (Nat.of_uint_acc (Nat.to_uint n) 0) with (Nat.of_uint (Nat.to_uint n)).
      rewrite DecimalNat.Unsigned.of_to. reflexivity.
    + apply all_digits_of_uint.
    + apply py_str_nonempty.
  - intros arg z. unfold Console.convert.
    destruct (Console.re_match_digits arg); [| discriminate].
    intros [= <-]. apply int_acc_nonneg. lia.
  - intros arg H. unfold Console.convert, Console.re_match_digits.
    rewrite H, andb_false_r. reflexivity.
  - reflexivity.
Qed.

Lemma X16_convert_reads_decimal_witness :
  Console.convert "2026" = VInt 2026 ∧ Console.convert "-5" = VStr "-5".
Proof.
  destruct X16_convert_reads_decimal as (Hnat & _ & Htext & _).
  split.
  - apply (Hnat 2026%nat). vm_compute. lia.
  - apply Htext. reflexivity.
Defined.

(** ** Stripping comments *)

Lemma find_lower_bound (c : ascii) (s : string) : (-1 <= Console.find c s)%Z.
Proof.
  induction s as [| a s IH]; cbn; [lia |].
  destruct (Ascii.eqb a c); [lia |].
  destruct (Console.find c s <? 0)%Z eqn:E; lia.
Qed.

Lemma cut_at_find (c : ascii) (s : string) :
  (if (0 <=? Console.find c s)%Z then Console.slice_to s (Console.find c s) else s)
  = Console.before c s.
Proof.
  induction s as [| a s IH]; [reflexivity |].
  cbn [Console.find Console.before].
  destruct (Ascii.eqb a c); [reflexivity |].
  pose proof (find_lower_bound c s) as Hlow.
  destruct (Console.find c s <? 0)%Z eqn:Eneg.
  - apply Z.ltb_lt in Eneg.
    replace (0 <=? Console.find c s)%Z with false in IH by (symmetry; apply Z.leb_gt; lia).
    cbn. rewrite <- IH. reflexivity.
  - apply Z.ltb_ge in Eneg.
    replace (0 <=? Console.find c s)%Z with true in IH by (symmetry; apply Z.leb_le; lia).
    replace (0 <=? Console.find c s + 1)%Z with true by (symmetry; apply Z.leb_le; lia).
    unfold Console.slice_to in *.
    replace (0 <=? Console.find c s)%Z with true in IH by (symmetry; apply Z.leb_le; lia).
    replace (0 <=? Console.find c s + 1)%Z with true by (symmetry; apply Z.leb_le; lia).
    replace (Z.to_nat (Console.find c s + 1)) with (S (Z.to_nat (Console.find c s))) by lia.
    cbn. rewrite IH. reflexivity.
Qed.

Lemma find_in_before (b c : ascii) (s : string) :
  (0 <= Console.find c (Console.before b s))%Z ->
  Console.find c s = Console.find c (Console.before b s).
Proof.
  induction s as [| a s IH]; [reflexivity |].
  cbn [Console.before].
  destruct (Ascii.eqb a b); [cbn; lia |].
  cbn [Console.find].
  destruct (Ascii.eqb a c); [reflexivity |].
  pose proof (find_lower_bound c (Console.before b s)) as Hlow.
  destruct (Console.find c (Console.before b s) <? 0)%Z eqn:E; [lia |].
  intros _. apply Z.ltb_ge in E. rewrite (IH E). rewrite (proj2 (Z.ltb_ge _ _) E).
  reflexivity.
Qed.

Lemma before_before_comment (s : string) :
  Console.before "#" (Console.before "!" s) = Console.before_comment s.
Proof.
  induction s as [| a s IH]; [reflexivity |].
  cbn [Console.before Console.before_comment].
  destruct (Ascii.eqb a "!"); [reflexivity |].
  cbn [Console.before orb].
  destruct (Ascii.eqb a "#"); [reflexivity |].
  rewrite IH. reflexivity.
Qed.

Lemma strip_comments_before_comment (cmd : string) :
  Console.strip_comments cmd = Console.before_comment cmd.
Proof.
  unfold Console.strip_comments. cbv zeta.
  rewrite (cut_at_find "!" cmd).
  rewrite <- before_before_comment, <- (cut_at_find "#" (Console.before "!" cmd)).
  destruct (0 <=? Console.find "#" (Console.before "!" cmd))%Z eqn:E; [| reflexivity].
  apply Z.leb_le in E. rewrite (find_in_before "!" "#" cmd E). reflexivity.
Qed.

(** X17.  Stripping comments keeps the command up to its first
    exclamation mark or hash, whichever comes first: the result holds
    neither character, and the command is the result followed by nothing
    or by text that starts with one of the two. *)
Theorem X17_strip_comments (cmd : string) :
  has_char "!" (Console.strip_comments cmd) = false ∧
  has_char "#" (Console.strip_comments cmd) = false ∧
  ∃ rest : string,
    cmd = Console.strip_comments cmd +:+ rest ∧
    (rest = "" ∨ String.prefix "!" rest = true ∨ String.prefix "#" rest = true).
Proof.
  rewrite strip_comments_before_comment.
  induction cmd as [| a s (Hbang & Hhash & rest & Hsplit & Hrest)].
  - repeat split. exists "". auto.
  - cbn [Console.before_comment].
    destruct (Ascii.eqb a "!") eqn:Ea.
    + apply Ascii.eqb_eq in Ea. subst a.
      repeat split. exists (String "!" s). split; [reflexivity |]. right. left.
      destruct s; reflexivity.
    + destruct (Ascii.eqb a "#") eqn:Eb.
      * apply Ascii.eqb_eq in Eb. subst a.
        repeat split. exists (String "#" s). split; [reflexivity |]. right. right.
        destruct s; reflexivity.
      * cbn [orb has_char]. rewrite Ea, Eb, Hbang, Hhash.
        repeat split. exists rest. split; [| exact Hrest].
        change (String a (Console.before_comment s) +:+ rest)
          with (String a (Console.before_comment s +:+ rest)).
        rewrite <- Hsplit. reflexivity.
Qed.

(** ** The context stack *)

Section ContextStack.

Variable Ptr : Type.
Implicit Types (s : list (Console.frame Ptr)) (c : Console.session Ptr).

Lemma unwind_from_spec (lspaces : nat) (cmd : string) s (cur : Ptr * option string)
      (out : list string) :
  Console.printed (Console.unwind_from lspaces cmd s cur out) = out ∧
  ∃ popped : list (Console.frame Ptr),
    s = (popped ++ Console.stack (Console.unwind_from lspaces cmd s cur out))%list ∧
    Forall (fun f => (lspaces <= Console.f_spaces f)%nat) popped ∧
    (Console.indented s ->
     Forall (fun f => (Console.f_spaces f < lspaces)%nat)
            (Console.stack (Console.unwind_from lspaces cmd s cur out)) ∧
     Console.indented (Console.stack (Console.unwind_from lspaces cmd s cur out))).
Proof.
  revert cur. induction s as [| top rest IH]; intros cur.
  - cbn. split; [reflexivity |]. exists []. repeat split; constructor.
  - cbn [Console.unwind_from].
    destruct (lspaces <=? Console.f_spaces top)%nat eqn:Ege.
    + apply Nat.leb_le in Ege.
      destruct (Console.f_spaces top =? lspaces)%nat eqn:Eeq.
      * apply Nat.eqb_eq in Eeq. cbn. split; [reflexivity |].
        exists [top]. split; [reflexivity |]. split; [repeat constructor; exact Ege |].
        intros [Hbelow Hrest]. split; [| exact Hrest].
        rewrite <- Eeq. exact Hbelow.
      * apply Nat.eqb_neq in Eeq.
        replace (Console.f_spaces top <? lspaces)%nat with false
          by (symmetry; apply Nat.ltb_ge; lia).
        destruct (IH (Console.f_ptr top, Console.f_name top))
          as (Hout & popped & Hsplit & Hpopped & Hsorted).
        split; [exact Hout |].
        exists (top :: popped). split; [cbn; rewrite <- Hsplit; reflexivity |].
        split; [constructor; assumption |].
        intros [_ Hrest]. apply Hsorted. exact Hrest.
    + apply Nat.leb_gt in Ege. cbn. split; [reflexivity |].
      exists []. split; [reflexivity |]. split; [constructor |].
      intros [Hbelow Hrest]. split; [| split; assumption].
      constructor; [exact Ege |].
      eapply Forall_impl; [exact Hbelow |]. cbn. intros f Hf. lia.
Qed.

(** X18.  Unwinding the context stack for a command indented by
    [lspaces] pops exactly a run of frames indented at least as much, and
    never prints the indentation warning: the branch that prints it cannot
    be reached.  If the stack was indented (every frame less than those
    above it), every frame left is indented less than [lspaces], so that
    the stack is indented again once the command has entered a new
    context. *)
Theorem X18_unwind_keeps_stack_indented (lspaces : nat) (cmd : string) c :
  Console.printed (Console.unwind lspaces cmd c) = Console.printed c ∧
  (∃ popped : list (Console.frame Ptr),
      Console.stack c = (popped ++ Console.stack (Console.unwind lspaces cmd c))%list ∧
      Forall (fun f => (lspaces <= Console.f_spaces f)%nat) popped) ∧
  (Console.indented (Console.stack c) ->
   ∀ (obj : Ptr) (token : string),
     Console.indented
       (Console.stack (Console.enter lspaces obj token (Console.unwind lspaces cmd c)))).
Proof.
  unfold Console.unwind.
  destruct (unwind_from_spec lspaces cmd (Console.stack c)
              (Console.ptr c, Console.ptrname c) (Console.printed c))
    as (Hout & popped & Hsplit & Hpopped & Hsorted).
  split; [exact Hout |]. split; [exists popped; split; assumption |].
  intros Hind obj token. cbn. apply Hsorted. exact Hind.
Qed.

(** X19.  On an indented stack, a command indented exactly like the
    command that left some context goes back to that context: the frames
    above the one with that indentation are dropped, its context becomes
    the current one, and the frames below it stay. *)
Theorem X19_unwind_returns_to_context (cmd : string) c
        (above below : list (Console.frame Ptr)) (f : Console.frame Ptr) :
  Console.stack c = (above ++ f :: below)%list ->
  Console.indented (Console.stack c) ->
  Console.unwind (Console.f_spaces f) cmd c
  = Console.mkSession (Console.f_ptr f) (Console.f_name f) below (Console.printed c).
Proof.
  unfold Console.unwind. intros -> Hind.
  generalize (Console.ptr c, Console.ptrname c). 
  induction above as [| a above IH]; intros cur.
  - cbn. rewrite Nat.leb_refl, Nat.eqb_refl. reflexivity.
  - destruct Hind as [Hbelow Hrest].
    assert (Hlt : (Console.f_spaces f < Console.f_spaces a)%nat).
    { apply Forall_app in Hbelow as [_ Hf]. apply Forall_cons_1 in Hf as [Hf _]. exact Hf. }
    cbn [Console.unwind_from app].
    replace (Console.f_spaces f <=? Console.f_spaces a)%nat with true
      by (symmetry; apply Nat.leb_le; lia).
    replace (Console.f_spaces a =? Console.f_spaces f)%nat with false
      by (symmetry; apply Nat.eqb_neq; lia).
    replace (Console.f_spaces a <? Console.f_spaces f)%nat with false
      by (symmetry; apply Nat.ltb_ge; lia).
    apply IH. exact Hrest.
Qed.

End ContextStack.

Lemma X18_unwind_keeps_stack_indented_witness :
  Console.indented
    (Console.stack (Console.enter 2 "ipaddr" "ipaddr" (Console.unwind 2 "ipaddr" nested_session))).
Proof.
  destruct (X18_unwind_keeps_stack_indented string 2 "ipaddr" nested_session) as (_ & _ & H).
  apply H. cbn. repeat constructor.
Defined.

Lemma X19_unwind_returns_to_context_witness :
  Console.unwind 0 "ls" nested_session = Console.mkSession "ipdb" None [] [].
Proof.
  apply (X19_unwind_returns_to_context string "ls" nested_session
           [Console.mkFrame "interfaces" (Some "interfaces") 4]
           [] (Console.mkFrame "ipdb" None 0)).
  - reflexivity.
  - cbn. repeat constructor.
Defined.

(** ** Arguments of a call *)

Lemma parse_args_step (k : string) (tokens : list string) (argv : list pyval)
      (kwarg : gmap string pyval) :
  (∀ (v : string) (rest : list string), tokens ≠ "=" :: v :: rest) ->
  Console.parse_args (k :: tokens) argv kwarg
  = Console.parse_args tokens (argv ++ [Console.convert k])%list kwarg.
Proof.
  intros Hne. destruct tokens as [| e [| v rest]]; try reflexivity.
  cbn [Console.parse_args].
  destruct (String.eqb e "=") eqn:E; [| reflexivity].
  apply String.eqb_eq in E. subst e. exfalso. apply (Hne v rest). reflexivity.
Qed.

Lemma parse_args_positional (tokens : list string) (argv : list pyval)
      (kwarg : gmap string pyval) :
  Forall (fun t => t ≠ "=") tokens ->
  Console.parse_args tokens argv kwarg = ((argv ++ map Console.convert tokens)%list, kwarg).
Proof.
  revert argv. induction tokens as [| k tokens IH]; intros argv Hall.
  - cbn. rewrite app_nil_r. reflexivity.
  - apply Forall_cons_1 in Hall as [_ Hrest].
    rewrite parse_args_step.
    + rewrite (IH _ Hrest), <- app_assoc. reflexivity.
    + intros v rest ->. apply Forall_cons_1 in Hrest as [Hhead _]. apply Hhead. reflexivity.
Qed.

Lemma parse_args_keyword (pre post : list string) (k v : string) (argv : list pyval)
      (kwarg : gmap string pyval) :
  Forall (fun t => t ≠ "=") pre ->
  k ≠ "=" ->
  Console.parse_args (pre ++ k :: "=" :: v :: post)%list argv kwarg
  = Console.parse_args post (argv ++ map Console.convert pre)%list (<[k := Console.convert v]> kwarg).
Proof.
  intros Hpre Hk. revert argv. induction pre as [| x pre IH]; intros argv.
  - cbn. rewrite app_nil_r. reflexivity.
  - apply Forall_cons_1 in Hpre as [_ Hrest].
    cbn [app map]. rewrite parse_args_step.
    + rewrite (IH Hrest), <- app_assoc. reflexivity.
    + intros v' rest Heq. destruct pre as [| y pre'].
      * cbn in Heq. injection Heq as Heq _. contradiction.
      * cbn in Heq. injection Heq as Heq _.
        apply Forall_cons_1 in Hrest as [Hy _]. contradiction.
Qed.

(** X20.  Sorting the tokens of a call into arguments: tokens among which
    no [=] occurs are all positional arguments, converted and in order.
    A token followed by [=] and by a value is a keyword argument and the
    three tokens are consumed; it replaces an earlier keyword argument of
    the same name.  A token followed by [=] at the very end, with no value
    left, is not one: both tokens become positional arguments. *)
Theorem X20_parse_args :
  (∀ tokens : list string,
      Forall (fun t => t ≠ "=") tokens ->
      Console.parse_args tokens [] ∅ = (map Console.convert tokens, ∅)) ∧
  (∀ (pre post : list string) (k v : string) (argv : list pyval) (kwarg : gmap string pyval),
      Forall (fun t => t ≠ "=") pre ->
      k ≠ "=" ->
      Console.parse_args (pre ++ k :: "=" :: v :: post)%list argv kwarg
      = Console.parse_args post (argv ++ map Console.convert pre)%list
                           (<[k := Console.convert v]> kwarg)) ∧
  (∀ (k v v' : string) (argv : list pyval) (kwarg : gmap string pyval),
      k ≠ "=" ->
      Console.parse_args [k; "="; v; k; "="; v'] argv kwarg
      = (argv, <[k := Console.convert v']> kwarg)) ∧
  (∀ k : string,
      k ≠ "=" ->
      Console.parse_args [k; "="] [] ∅ = ([Console.convert k; VStr "="], ∅)).
Proof.
  split; [| split; [| split]].
  - intros tokens Hall. apply (parse_args_positional tokens [] ∅ Hall).
  - apply parse_args_keyword.
  - intros k v v' argv kwarg Hk.
    pose proof (parse_args_keyword [] [k; "="; v'] k v argv kwarg (Forall_nil_2 _) Hk) as H1.
    pose proof (parse_args_keyword [] [] k v' (argv ++ map Console.convert [])%list
                  (<[k := Console.convert v]> kwarg) (Forall_nil_2 _) Hk) as H2.
    cbn [app map] in H1, H2. rewrite H1, H2. cbn.
    rewrite !app_nil_r, insert_insert_eq. reflexivity.
  - intros k Hk. rewrite parse_args_step.
    + reflexivity.
    + intros v rest H. discriminate H.
Qed.

Lemma X20_parse_args_witness :
  Console.parse_args ["10.0.0.1/24"; "mtu"; "="; "1500"] [] ∅
  = ([VStr "10.0.0.1/24"], {[ "mtu" := VInt 1500 ]}).
Proof.
  destruct X20_parse_args as (_ & Hkw & _).
  apply (Hkw ["10.0.0.1/24"] [] "mtu" "1500" [] ∅).
  - repeat constructor. discriminate.
  - discriminate.
Defined.
